(** * CinderBox2D: polygon contact manifolds and the time-of-impact interface

    A shallow embedding of [Collision/cb2CollidePolygon.cpp] and of the
    interface declared in [Collision/cb2TimeOfImpact.h].

    Scalars are IEEE-754 binary32 values ([float] in the C++ source), taken
    from the Standard Library's executable specification of floating-point
    numbers; [int] is [Z]; the fixed-size arrays of the engine are lists that
    are read and written by index. *)

From Stdlib Require Import ZArith Bool Lia.
From Stdlib Require Import Floats.SpecFloat.
From stdpp Require Import base list list_numbers.

Local Open Scope Z_scope.

(** ** binary32 arithmetic *)

Module F32.

Definition prec : Z := 24.
Definition emax : Z := 128.

Definition float32 : Type := spec_float.

Definition add : float32 -> float32 -> float32 := SFadd prec emax.
Definition sub : float32 -> float32 -> float32 := SFsub prec emax.
Definition mul : float32 -> float32 -> float32 := SFmul prec emax.
Definition div : float32 -> float32 -> float32 := SFdiv prec emax.
Definition sqrt : float32 -> float32 := SFsqrt prec emax.
Definition neg : float32 -> float32 := SFopp.
Definition ltb : float32 -> float32 -> bool := SFltb.
Definition leb : float32 -> float32 -> bool := SFleb.
Definition eqb : float32 -> float32 -> bool := SFeqb.

(** The binary32 value of an integer literal. *)
Definition of_Z (z : Z) : float32 := binary_normalize prec emax z 0 false.

(** The binary32 value nearest to the decimal literal [n / d]. *)
Definition of_ratio (n d : Z) : float32 := div (of_Z n) (of_Z d).

Definition zero : float32 := S754_zero false.
Definition one : float32 := of_Z 1.
Definition half : float32 := of_ratio 1 2.

(** [FLT_MAX], the largest finite binary32 value. *)
Definition FLT_MAX : float32 := SFmax_float prec emax.

Definition is_nan (x : float32) : bool :=
  match x with S754_nan => true | _ => false end.

End F32.

Import F32.

Declare Scope f32_scope.
Delimit Scope f32_scope with f32.
Bind Scope f32_scope with float32.
Notation "a + b" := (add a b) : f32_scope.
Notation "a - b" := (sub a b) : f32_scope.
Notation "a * b" := (mul a b) : f32_scope.
Notation "a / b" := (div a b) : f32_scope.
Notation "- a" := (neg a) : f32_scope.
Notation "a <? b" := (ltb a b) : f32_scope.
Notation "a <=? b" := (leb a b) : f32_scope.
Notation "a >? b" := (ltb b a) (at level 70) : f32_scope.

(** ** Engine constants (b2Settings.h) *)

(** Modelled from the spec: [b2Settings.h] is not among the sources.  The
    sentinel [b2_maxFloat] is the engine's name for [FLT_MAX]. *)
Definition b2_maxFloat : float32 := FLT_MAX.

(** Modelled from the spec: manifold and clip buffers hold at most two
    points. *)
Definition b2_maxManifoldPoints : Z := 2.


(** The reference engine's published linear slop, [0.005f].  The collision
    routine below takes the constant as a parameter; this is the value used
    when it is run. *)
Definition b2_linearSlop_default : float32 := of_ratio 5 1000.

(** ** Vectors, rotations and transforms (cb2Math.h)

    [cb2Math.h] and the vector class of the host framework are not among
    the sources; the collision routine only calls them.  The definitions
    given here are the usual ones, and the concrete runs use them. *)

(** Modelled from the spec: the 2D vector [ci::Vec2f]. *)
Record b2Vec2 : Type := mkVec2 { vx : float32; vy : float32 }.

(** Modelled from the spec: the rotation of a transform, held as sine and
    cosine. *)
Record b2Rot : Type := mkRot { rs : float32; rc : float32 }.

(** Modelled from the spec: a rigid placement, translation [p] and
    rotation [q]. *)
Record b2Transform : Type := mkTransform { xp : b2Vec2; xq : b2Rot }.

Definition b2Vec2_zero : b2Vec2 := mkVec2 zero zero.

(** Modelled from the spec: the vector operators [+], [-], unary [-] and
    scalar [*] of the vector class. *)
Definition vadd (a b : b2Vec2) : b2Vec2 :=
  mkVec2 (vx a + vx b)%f32 (vy a + vy b)%f32.

Definition vsub (a b : b2Vec2) : b2Vec2 :=
  mkVec2 (vx a - vx b)%f32 (vy a - vy b)%f32.

Definition vneg (a : b2Vec2) : b2Vec2 :=
  mkVec2 (- vx a)%f32 (- vy a)%f32.

Definition vscale (s : float32) (a : b2Vec2) : b2Vec2 :=
  mkVec2 (s * vx a)%f32 (s * vy a)%f32.

(** Modelled from the spec: [b2Dot], the signed projection of one vector
    on another. *)
Definition b2Dot (a b : b2Vec2) : float32 :=
  (vx a * vx b + vy a * vy b)%f32.

(** Modelled from the spec: [b2Cross(v, s)], the vector perpendicular to
    [v], scaled by [s]. *)
Definition b2Cross_vs (a : b2Vec2) (s : float32) : b2Vec2 :=
  mkVec2 (s * vy a)%f32 (- s * vx a)%f32.

Definition vlength (a : b2Vec2) : float32 :=
  sqrt (vx a * vx a + vy a * vy a)%f32.

(** Modelled from the spec: [normalize] of the vector class, which scales
    by the inverse of the length. *)
Definition vnormalize (a : b2Vec2) : b2Vec2 :=
  let invS := (one / vlength a)%f32 in
  mkVec2 (vx a * invS)%f32 (vy a * invS)%f32.

(** Modelled from the spec: [b2Mul(q, v)], rotate a vector. *)
Definition b2Mul_rv (q : b2Rot) (v : b2Vec2) : b2Vec2 :=
  mkVec2 (rc q * vx v - rs q * vy v)%f32 (rs q * vx v + rc q * vy v)%f32.

(** Modelled from the spec: [b2MulT(q, v)], inverse-rotate a vector. *)
Definition b2MulT_rv (q : b2Rot) (v : b2Vec2) : b2Vec2 :=
  mkVec2 (rc q * vx v + rs q * vy v)%f32 (- rs q * vx v + rc q * vy v)%f32.

(** Modelled from the spec: [b2MulT(q, r)], transpose-multiply two
    rotations. *)
Definition b2MulT_rr (q r : b2Rot) : b2Rot :=
  mkRot (rc q * rs r - rs q * rc r)%f32 (rc q * rc r + rs q * rs r)%f32.

(** Modelled from the spec: [b2Mul(T, v)], apply a transform: the rotation,
    then the offset. *)
Definition b2Mul_xv (T : b2Transform) (v : b2Vec2) : b2Vec2 :=
  mkVec2 ((rc (xq T) * vx v - rs (xq T) * vy v) + vx (xp T))%f32
         ((rs (xq T) * vx v + rc (xq T) * vy v) + vy (xp T))%f32.

(** Modelled from the spec: [b2MulT(T, v)], map a world point into the
    frame of a transform. *)
Definition b2MulT_xv (T : b2Transform) (v : b2Vec2) : b2Vec2 :=
  let px := (vx v - vx (xp T))%f32 in
  let py := (vy v - vy (xp T))%f32 in
  mkVec2 (rc (xq T) * px + rs (xq T) * py)%f32
         (- rs (xq T) * px + rc (xq T) * py)%f32.

(** Modelled from the spec: [b2MulT(A, B)], inverse-composition: the
    frame of [B] seen from the frame of [A]. *)
Definition b2MulT_xx (A B : b2Transform) : b2Transform :=
  mkTransform (b2MulT_rv (xq A) (vsub (xp B) (xp A))) (b2MulT_rr (xq A) (xq B)).

(** ** Shapes, clip vertices and manifolds (cb2Collision.h, cb2PolygonShape.h) *)

(** Modelled from the spec: the convex polygon of [cb2PolygonShape.h]:
    vertices, one outward normal per edge, the number of vertices in use
    and the skin radius. *)
Record b2PolygonShape : Type := mkPolygon {
  m_vertices : list b2Vec2;
  m_normals : list b2Vec2;
  m_count : Z;
  m_radius : float32
}.

(** Modelled from the spec: the feature types of [b2ContactFeature]. *)
Inductive b2FeatureType : Type := e_vertex | e_face.

(** Modelled from the spec: the four single-byte fields of
    [b2ContactFeature], a (type, index) tag per shape. *)
Record b2ContactFeature : Type := mkFeature {
  indexA : Z;
  indexB : Z;
  typeA : b2FeatureType;
  typeB : b2FeatureType
}.

(** Modelled from the spec: a clip vertex, a point with its tag. *)
Record b2ClipVertex : Type := mkClipVertex {
  cv_v : b2Vec2;
  cv_id : b2ContactFeature
}.

(** Modelled from the spec: a manifold point, with the fields the
    collision routine writes.  The accumulated impulses of the solver are
    not touched by it. *)
Record b2ManifoldPoint : Type := mkManifoldPoint {
  mp_localPoint : b2Vec2;
  mp_id : b2ContactFeature
}.

(** Modelled from the spec: the manifold types. *)
Inductive b2ManifoldType : Type := e_circles | e_faceA | e_faceB.

(** Modelled from the spec: the contact manifold: a point array of
    [b2_maxManifoldPoints] slots, the local normal and point of the
    reference face, the type and the number of points in use. *)
Record b2Manifold : Type := mkManifold {
  points : list b2ManifoldPoint;
  localNormal : b2Vec2;
  localPoint : b2Vec2;
  mtype : b2ManifoldType;
  pointCount : Z
}.

(** [(unsigned char) i] *)
Definition to_uint8 (i : Z) : Z := i mod 256.

(** [a[i]] for a native array held as a list. *)
Definition at_index {A : Type} (d : A) (a : list A) (i : Z) : A :=
  default d (a !! Z.to_nat i).

Definition vertex_at (a : list b2Vec2) (i : Z) : b2Vec2 := at_index b2Vec2_zero a i.

Definition clip_vertex_zero : b2ClipVertex :=
  mkClipVertex b2Vec2_zero (mkFeature 0 0 e_vertex e_vertex).

Definition clip_at (a : list b2ClipVertex) (i : Z) : b2ClipVertex :=
  at_index clip_vertex_zero a i.

(** ** cb2CollidePolygon.cpp *)

(** The projection computed at line 46: vertex [j] of [poly2] relative to
    the first vertex of face [i] of [poly1], along that face's normal, all
    in the frame of [poly2]. *)
Definition edgeVertexSeparation
    (poly1 : b2PolygonShape) (xf1 : b2Transform)
    (poly2 : b2PolygonShape) (xf2 : b2Transform) (i j : Z) : float32 :=
  let xf := b2MulT_xx xf2 xf1 in
  let n := b2Mul_rv (xq xf) (vertex_at (m_normals poly1) i) in
  let v1 := b2Mul_xv xf (vertex_at (m_vertices poly1) i) in
  b2Dot n (vsub (vertex_at (m_vertices poly2) j) v1).

(** The inner loop of [b2FindMaxSeparation] (lines 43-51): the deepest
    point of [poly2] for normal [i]. *)
Definition deepestPoint
    (poly1 : b2PolygonShape) (xf1 : b2Transform)
    (poly2 : b2PolygonShape) (xf2 : b2Transform) (i : Z) : float32 :=
  foldl (fun si j =>
           let sij := edgeVertexSeparation poly1 xf1 poly2 xf2 i j in
           if (sij <? si)%f32 then sij else si)
        b2_maxFloat (seqZ 0 (m_count poly2)).

(** Find the max separation between poly1 and poly2 using edge normals from
    poly1.  Returns [( *edgeIndex, maxSeparation )]. *)
Definition b2FindMaxSeparation
    (poly1 : b2PolygonShape) (xf1 : b2Transform)
    (poly2 : b2PolygonShape) (xf2 : b2Transform) : Z * float32 :=
  let count1 := m_count poly1 in
  foldl (fun (st : Z * float32) i =>
           let '(bestIndex, maxSeparation) := st in
           let si := deepestPoint poly1 xf1 poly2 xf2 i in
           if (si >? maxSeparation)%f32 then (i, si) else (bestIndex, maxSeparation))
        (0, (- b2_maxFloat)%f32) (seqZ 0 count1).

(** The reference normal in the frame of [poly2] (line 77). *)
Definition incidentNormal1
    (poly1 : b2PolygonShape) (xf1 : b2Transform) (edge1 : Z)
    (xf2 : b2Transform) : b2Vec2 :=
  b2MulT_rv (xq xf2) (b2Mul_rv (xq xf1) (vertex_at (m_normals poly1) edge1)).

(** The search loop of [b2FindIncidentEdge] (lines 80-90), returning
    [(index, minDot)]. *)
Definition incidentIndex
    (normal1 : b2Vec2) (poly2 : b2PolygonShape) : Z * float32 :=
  foldl (fun (st : Z * float32) i =>
           let '(index, minDot) := st in
           let dot := b2Dot normal1 (vertex_at (m_normals poly2) i) in
           if (dot <? minDot)%f32 then (i, dot) else (index, minDot))
        (0, b2_maxFloat) (seqZ 0 (m_count poly2)).

(** [b2FindIncidentEdge]: the two clip vertices [c[0]], [c[1]].  A failed
    [b2Assert] stops the program: when the assertion of line 74 does not
    hold the call does not return, and the result is [None]. *)
Definition b2FindIncidentEdge
    (poly1 : b2PolygonShape) (xf1 : b2Transform) (edge1 : Z)
    (poly2 : b2PolygonShape) (xf2 : b2Transform) : option (list b2ClipVertex) :=
  let count2 := m_count poly2 in
  let vertices2 := m_vertices poly2 in
  if negb ((0 <=? edge1) && (edge1 <? m_count poly1)) then None else
  let normal1 := incidentNormal1 poly1 xf1 edge1 xf2 in
  let index := fst (incidentIndex normal1 poly2) in
  let i1 := index in
  let i2 := if i1 + 1 <? count2 then i1 + 1 else 0 in
  Some [ mkClipVertex (b2Mul_xv xf2 (vertex_at vertices2 i1))
                      (mkFeature (to_uint8 edge1) (to_uint8 i1) e_face e_vertex);
         mkClipVertex (b2Mul_xv xf2 (vertex_at vertices2 i2))
                      (mkFeature (to_uint8 edge1) (to_uint8 i2) e_face e_vertex) ].

(** The reference/incident roles chosen at lines 133-159. *)
Record b2ReferenceChoice : Type := mkChoice {
  poly1 : b2PolygonShape;
  poly2 : b2PolygonShape;
  xf1 : b2Transform;
  xf2 : b2Transform;
  edge1 : Z;
  choice_type : b2ManifoldType;
  flip : bool
}.

(** The reference face frame built at lines 164-190. *)
Record b2ReferenceFrame : Type := mkFrame {
  iv1 : Z;
  iv2 : Z;
  frame_localNormal : b2Vec2;
  planePoint : b2Vec2;
  tangent : b2Vec2;
  normal : b2Vec2;
  frontOffset : float32;
  sideOffset1 : float32;
  sideOffset2 : float32
}.

(** [cf] with the per-shape components exchanged (lines 228-232). *)
Definition swapFeatures (cf : b2ContactFeature) : b2ContactFeature :=
  mkFeature (indexB cf) (indexA cf) (typeB cf) (typeA cf).

Definition set_pointCount (m : b2Manifold) (n : Z) : b2Manifold :=
  mkManifold (points m) (localNormal m) (localPoint m) (mtype m) n.

Definition set_type (m : b2Manifold) (t : b2ManifoldType) : b2Manifold :=
  mkManifold (points m) (localNormal m) (localPoint m) t (pointCount m).

Definition set_local (m : b2Manifold) (n p : b2Vec2) : b2Manifold :=
  mkManifold (points m) n p (mtype m) (pointCount m).

Definition set_points (m : b2Manifold) (ps : list b2ManifoldPoint) : b2Manifold :=
  mkManifold ps (localNormal m) (localPoint m) (mtype m) (pointCount m).

Section CollidePolygons.

(** [b2_linearSlop] of [b2Settings.h], and [b2ClipSegmentToLine] of
    [cb2Collision.cpp]: neither file is among the sources, so the routine
    is stated over both.  The clipper takes [vIn], the plane normal, the
    offset and [vertexIndexA], and returns the points it wrote to [vOut];
    the count it returns is their number. *)
Variable b2_linearSlop : float32.
Variable b2ClipSegmentToLine :
  list b2ClipVertex -> b2Vec2 -> float32 -> Z -> list b2ClipVertex.

Definition totalRadius (polyA polyB : b2PolygonShape) : float32 :=
  (m_radius polyA + m_radius polyB)%f32.

Definition k_tol : float32 := (of_ratio 1 10 * b2_linearSlop)%f32.

(** Lines 133-159. *)
Definition chooseReference
    (polyA : b2PolygonShape) (xfA : b2Transform)
    (polyB : b2PolygonShape) (xfB : b2Transform)
    (edgeA : Z) (separationA : float32)
    (edgeB : Z) (separationB : float32) : b2ReferenceChoice :=
  if (separationB >? separationA + k_tol)%f32
  then mkChoice polyB polyA xfB xfA edgeB e_faceB true
  else mkChoice polyA polyB xfA xfB edgeA e_faceA false.

(** Lines 164-190. *)
Definition referenceFrame (r : b2ReferenceChoice) (totalRadius : float32)
    : b2ReferenceFrame :=
  let count1 := m_count (poly1 r) in
  let vertices1 := m_vertices (poly1 r) in
  let iv1 := edge1 r in
  let iv2 := if edge1 r + 1 <? count1 then edge1 r + 1 else 0 in
  let v11 := vertex_at vertices1 iv1 in
  let v12 := vertex_at vertices1 iv2 in
  let localTangent := vnormalize (vsub v12 v11) in
  let localNormal := b2Cross_vs localTangent one in
  let planePoint := vscale half (vadd v11 v12) in
  let tangent := b2Mul_rv (xq (xf1 r)) localTangent in
  let normal := b2Cross_vs tangent one in
  let v11 := b2Mul_xv (xf1 r) v11 in
  let v12 := b2Mul_xv (xf1 r) v12 in
  let frontOffset := b2Dot normal v11 in
  let sideOffset1 := (- b2Dot tangent v11 + totalRadius)%f32 in
  let sideOffset2 := (b2Dot tangent v12 + totalRadius)%f32 in
  mkFrame iv1 iv2 localNormal planePoint tangent normal
          frontOffset sideOffset1 sideOffset2.

(** The signed distance of a clipped point from the reference face
    (line 218). *)
Definition pointSeparation (f : b2ReferenceFrame) (c : b2ClipVertex) : float32 :=
  (b2Dot (normal f) (cv_v c) - frontOffset f)%f32.

(** The manifold point written for a kept clip point (lines 222-233). *)
Definition manifoldPointOf (r : b2ReferenceChoice) (c : b2ClipVertex)
    : b2ManifoldPoint :=
  mkManifoldPoint (b2MulT_xv (xf2 r) (cv_v c))
                  (if flip r then swapFeatures (cv_id c) else cv_id c).

(** The loop of lines 215-236 over the slots of [clipPoints2]: the state is
    the manifold's point array and the local [pointCount]. *)
Definition emitPoints (r : b2ReferenceChoice) (f : b2ReferenceFrame)
    (totalRadius : float32) (clipPoints2 : list b2ClipVertex)
    (pts : list b2ManifoldPoint) : list b2ManifoldPoint * Z :=
  foldl (fun (st : list b2ManifoldPoint * Z) i =>
           let '(pts, pointCount) := st in
           let separation := pointSeparation f (clip_at clipPoints2 i) in
           if (separation <=? totalRadius)%f32
           then (<[Z.to_nat pointCount := manifoldPointOf r (clip_at clipPoints2 i)]> pts,
                 pointCount + 1)
           else (pts, pointCount))
        (pts, 0) (seqZ 0 b2_maxManifoldPoints).

(** The first clip, of the incident edge against side 1 (line 198). *)
Definition clipSide1 (incidentEdge : list b2ClipVertex) (f : b2ReferenceFrame)
    : list b2ClipVertex :=
  b2ClipSegmentToLine incidentEdge (vneg (tangent f)) (sideOffset1 f) (iv1 f).

(** The second clip, of the first clip's points against side 2 (line 204). *)
Definition clipSide2 (clipPoints1 : list b2ClipVertex) (f : b2ReferenceFrame)
    : list b2ClipVertex :=
  b2ClipSegmentToLine clipPoints1 (tangent f) (sideOffset2 f) (iv2 f).

(** The normal points from 1 to 2.  The manifold is an in/out argument: the
    result is the manifold as the routine leaves it, or [None] when the
    assertion of [b2FindIncidentEdge] fails and the routine does not
    return. *)
Definition b2CollidePolygons (manifold : b2Manifold)
    (polyA : b2PolygonShape) (xfA : b2Transform)
    (polyB : b2PolygonShape) (xfB : b2Transform) : option b2Manifold :=
  let manifold := set_pointCount manifold 0 in
  let totalRadius := totalRadius polyA polyB in
  let '(edgeA, separationA) := b2FindMaxSeparation polyA xfA polyB xfB in
  if (separationA >? totalRadius)%f32 then Some manifold else
  let '(edgeB, separationB) := b2FindMaxSeparation polyB xfB polyA xfA in
  if (separationB >? totalRadius)%f32 then Some manifold else
  let r := chooseReference polyA xfA polyB xfB edgeA separationA edgeB separationB in
  let manifold := set_type manifold (choice_type r) in
  match b2FindIncidentEdge (poly1 r) (xf1 r) (edge1 r) (poly2 r) (xf2 r) with
  | None => None
  | Some incidentEdge =>
  let f := referenceFrame r totalRadius in
  (* Clip to box side 1 *)
  let clipPoints1 := clipSide1 incidentEdge f in
  let np := Z.of_nat (length clipPoints1) in
  if np <? 2 then Some manifold else
  (* Clip to negative box side 1 *)
  let clipPoints2 := clipSide2 clipPoints1 f in
  let np := Z.of_nat (length clipPoints2) in
  if np <? 2 then Some manifold else
  (* Now clipPoints2 contains the clipped points. *)
  let manifold := set_local manifold (frame_localNormal f) (planePoint f) in
  let '(pts, pointCount) :=
    emitPoints r f totalRadius clipPoints2 (points manifold) in
  Some (set_pointCount (set_points manifold pts) pointCount)
  end.

End CollidePolygons.

(** ** The segment clipper (cb2Collision.cpp) *)

(** Modelled from the spec: the signed distance
    [dot(normal, point) - offset] of a clip vertex from the clipping
    line. *)
Definition clipDistance (normal : b2Vec2) (offset : float32) (c : b2ClipVertex)
    : float32 :=
  (b2Dot normal (cv_v c) - offset)%f32.

(** Modelled from the spec: the tag synthesized for a point created by
    clipping.  It carries [vertexIndexA] as the reference-side index and
    marks that side as a vertex; the incident side keeps the index of
    [vIn[0]] and becomes a face. *)
Definition clippedFeature (vertexIndexA : Z) (vIn0 : b2ClipVertex)
    : b2ContactFeature :=
  mkFeature (to_uint8 vertexIndexA) (indexB (cv_id vIn0)) e_vertex e_face.

(** Modelled from the spec: the point where the segment crosses the line,
    by linear interpolation along the segment. *)
Definition clipIntersection (vIn0 vIn1 : b2ClipVertex) (distance0 distance1 : float32)
    : b2Vec2 :=
  let interp := (distance0 / (distance0 - distance1))%f32 in
  vadd (cv_v vIn0) (vscale interp (vsub (cv_v vIn1) (cv_v vIn0))).

(** Modelled from the spec: [b2ClipSegmentToLine] is defined in
    [cb2Collision.cpp], which is not among the sources; only its caller is.
    The three cases are those of the component design: both distances at
    most zero, exactly one above zero, both above zero.  Distances that are
    not ordered against zero fall under none of them and yield no point. *)
Definition b2ClipSegmentToLine (vIn : list b2ClipVertex) (normal : b2Vec2)
    (offset : float32) (vertexIndexA : Z) : list b2ClipVertex :=
  let vIn0 := clip_at vIn 0 in
  let vIn1 := clip_at vIn 1 in
  let distance0 := clipDistance normal offset vIn0 in
  let distance1 := clipDistance normal offset vIn1 in
  let crossing :=
    mkClipVertex (clipIntersection vIn0 vIn1 distance0 distance1)
                 (clippedFeature vertexIndexA vIn0) in
  if (distance0 <=? zero)%f32 && (distance1 <=? zero)%f32 then [vIn0; vIn1]
  else if (distance0 >? zero)%f32 && (distance1 >? zero)%f32 then []
  else if (distance0 >? zero)%f32 then [vIn1; crossing]
  else if (distance1 >? zero)%f32 then [vIn0; crossing]
  else [].

(** ** cb2TimeOfImpact.h *)

Inductive cb2TOIState : Type :=
  | e_unknown
  | e_failed
  | e_overlapped
  | e_touching
  | e_separated.

(** Output parameters for cb2TimeOfImpact. *)
Record cb2TOIOutput : Type := mkTOIOutput {
  toi_state : cb2TOIState;
  toi_t : float32
}.

Section TimeOfImpact.

(** The proxy and sweep types of [cb2Distance.h] and [cb2Math.h]. *)
Variables cb2DistanceProxy cb2Sweep : Type.

(** Input parameters for cb2TimeOfImpact.  [tMax] defines the sweep
    interval [[0, tMax]]. *)
Record cb2TOIInput : Type := mkTOIInput {
  proxyA : cb2DistanceProxy;
  proxyB : cb2DistanceProxy;
  sweepA : cb2Sweep;
  sweepB : cb2Sweep;
  tMax : float32
}.

(** The external leaves of the driver: the closest-point distance of the
    two proxies placed by their sweeps at time [t]; the touching tolerance
    derived from the two skin radii; the bound on the closing speed; the
    threshold under which a denominator counts as near zero; the iteration
    cap. *)
Variable distanceAt : cb2TOIInput -> float32 -> float32.
Variable toleranceBand : cb2TOIInput -> float32.
Variable approachBound : cb2TOIInput -> float32 -> float32.
Variable b2_epsilon : float32.
Variable k_maxIterations : nat.

(** Modelled from the spec: [b2Min], used to clamp the advanced time. *)
Definition b2Min (a b : float32) : float32 := if (a <? b)%f32 then a else b.

(** Modelled from the spec: one iteration of conservative advancement at
    candidate time [t], the [iter]-th of the query. *)
Definition toiIteration (input : cb2TOIInput) (t : float32) (iter : nat)
    : cb2TOIOutput * nat :=
  if (k_maxIterations <=? iter)%nat then (mkTOIOutput e_failed t, iter) else
  let distance := distanceAt input t in
  let band := toleranceBand input in
  if (distance <=? band)%f32 then
    if eqb t zero then (mkTOIOutput e_overlapped t, iter)
    else (mkTOIOutput e_touching t, iter)
  else
    let bound := approachBound input t in
    if (bound <=? b2_epsilon)%f32 then (mkTOIOutput e_failed t, iter) else
    let t' := b2Min (t + (distance - band) / bound)%f32 (tMax input) in
    if (tMax input <=? t')%f32 then (mkTOIOutput e_separated t', iter)
    else (mkTOIOutput e_unknown t', S iter).

(** Modelled from the spec: the driver's state machine.  A configuration is
    the output under construction and the iteration count; only [e_unknown]
    has a successor. *)
Definition toiStep (input : cb2TOIInput) (cfg : cb2TOIOutput * nat)
    : option (cb2TOIOutput * nat) :=
  match toi_state (fst cfg) with
  | e_unknown => Some (toiIteration input (toi_t (fst cfg)) (snd cfg))
  | _ => None
  end.

(** Modelled from the spec: the machine run for at most [fuel] steps. *)
Fixpoint toiRun (input : cb2TOIInput) (fuel : nat) (cfg : cb2TOIOutput * nat)
    : cb2TOIOutput * nat :=
  match fuel with
  | O => cfg
  | S fuel' =>
      match toiStep input cfg with
      | Some cfg' => toiRun input fuel' cfg'
      | None => cfg
      end
  end.

(** Modelled from the spec: [cb2TimeOfImpact] is only declared in
    [cb2TimeOfImpact.h]; its definition is not among the sources.  The
    candidate time starts at zero in state [e_unknown] and the machine runs
    until it reports; one step more than the cap is always enough. *)
Definition cb2TimeOfImpact (input : cb2TOIInput) : cb2TOIOutput :=
  fst (toiRun input (S k_maxIterations) (mkTOIOutput e_unknown zero, O)).

End TimeOfImpact.

(** * The vocabulary of the properties *)

(** ** The order of binary32 comparisons

    [SFcompare] orders the values that are not NaN by class, exponent and
    mantissa.  [order_key] maps a value to that triple, so the facts about
    [<] and [<=] used below reduce to linear arithmetic on the keys. *)

Definition order_key (x : float32) : option (Z * Z * Z) :=
  match x with
  | S754_nan => None
  | S754_infinity true => Some (-2, 0, 0)
  | S754_finite true m e => Some (-1, - e, - Zpos m)
  | S754_zero _ => Some (0, 0, 0)
  | S754_finite false m e => Some (1, e, Zpos m)
  | S754_infinity false => Some (2, 0, 0)
  end.

Definition key_lt (a b : Z * Z * Z) : Prop :=
  a.1.1 < b.1.1 \/
  (a.1.1 = b.1.1 /\ (a.1.2 < b.1.2 \/ (a.1.2 = b.1.2 /\ a.2 < b.2))).

Definition key_rel (c : comparison) (a b : Z * Z * Z) : Prop :=
  match c with
  | Lt => key_lt a b
  | Eq => a = b
  | Gt => key_lt b a
  end.

(** ** Loops that keep the best candidate seen

    The three search loops of the file have one shape: walk the indices,
    and replace the running best when the candidate beats it strictly. *)

Section BestSoFar.

Context {A : Type}.
Variable beats : A -> A -> bool.
Variable f : Z -> A.

Definition bestIndexed (init : Z * A) (l : list Z) : Z * A :=
  foldl (fun (st : Z * A) i =>
           let '(idx, best) := st in
           if beats (f i) best then (i, f i) else (idx, best))
        init l.

Definition bestValue (init : A) (l : list Z) : A :=
  foldl (fun best i => if beats (f i) best then f i else best) init l.

End BestSoFar.

(** ** The separation finder and the incident edge selector *)




(** A value inside the finite range of the format: not NaN and between
    [-b2_maxFloat] and [b2_maxFloat]. *)
Definition in_float_range (x : float32) : bool :=
  leb (neg b2_maxFloat) x && leb x b2_maxFloat.

(** The normal of face [edge1] of the reference polygon expressed in the
    frame of the incident polygon: turned into the world by the rotation of
    [xf1], then into the incident frame by the inverse of the rotation of
    [xf2]. *)
Definition referenceNormalSeenFrom
    (poly1 : b2PolygonShape) (xf1 : b2Transform) (edge1 : Z)
    (xf2 : b2Transform) : b2Vec2 :=
  let n := vertex_at (m_normals poly1) edge1 in
  let world :=
    mkVec2 (rc (xq xf1) * vx n - rs (xq xf1) * vy n)%f32
           (rs (xq xf1) * vx n + rc (xq xf1) * vy n)%f32 in
  mkVec2 (rc (xq xf2) * vx world + rs (xq xf2) * vy world)%f32
         (- rs (xq xf2) * vx world + rc (xq xf2) * vy world)%f32.

(** The dot product of that normal with the outward normal of edge [i] of
    the incident polygon. *)
Definition incidentDot
    (poly1 : b2PolygonShape) (xf1 : b2Transform) (edge1 : Z)
    (poly2 : b2PolygonShape) (xf2 : b2Transform) (i : Z) : float32 :=
  let n1 := referenceNormalSeenFrom poly1 xf1 edge1 xf2 in
  let n2 := vertex_at (m_normals poly2) i in
  (vx n1 * vx n2 + vy n1 * vy n2)%f32.


(** ** The manifold builder *)

Section ManifoldValues.

Variable b2_linearSlop : float32.
Variable clipSegment :
  list b2ClipVertex -> b2Vec2 -> float32 -> Z -> list b2ClipVertex.

(** The values the routine computes on the way, named as in the source. *)
Definition separationA polyA xfA polyB xfB : float32 :=
  (b2FindMaxSeparation polyA xfA polyB xfB).2.

Definition separationB polyA xfA polyB xfB : float32 :=
  (b2FindMaxSeparation polyB xfB polyA xfA).2.

Definition referenceOf polyA xfA polyB xfB : b2ReferenceChoice :=
  chooseReference b2_linearSlop polyA xfA polyB xfB
    (b2FindMaxSeparation polyA xfA polyB xfB).1 (separationA polyA xfA polyB xfB)
    (b2FindMaxSeparation polyB xfB polyA xfA).1 (separationB polyA xfA polyB xfB).

Definition frameOf polyA xfA polyB xfB : b2ReferenceFrame :=
  referenceFrame (referenceOf polyA xfA polyB xfB) (totalRadius polyA polyB).

(** The assertion of [b2FindIncidentEdge], on the reference edge the
    routine passes to it. *)
Definition referenceEdgeValid polyA xfA polyB xfB : bool :=
  let r := referenceOf polyA xfA polyB xfB in
  (0 <=? edge1 r) && (edge1 r <? m_count (poly1 r)).

(** The incident edge the routine clips; no edge when the assertion
    fails. *)
Definition incidentEdgeOf polyA xfA polyB xfB : list b2ClipVertex :=
  let r := referenceOf polyA xfA polyB xfB in
  default [] (b2FindIncidentEdge (poly1 r) (xf1 r) (edge1 r) (poly2 r) (xf2 r)).

Definition clipPoints1 polyA xfA polyB xfB : list b2ClipVertex :=
  clipSide1 clipSegment (incidentEdgeOf polyA xfA polyB xfB)
            (frameOf polyA xfA polyB xfB).

Definition clipPoints2 polyA xfA polyB xfB : list b2ClipVertex :=
  clipSide2 clipSegment (clipPoints1 polyA xfA polyB xfB)
            (frameOf polyA xfA polyB xfB).

(** The routine got past both early exits, the assertion and both clips. *)
Definition clipSucceeds polyA xfA polyB xfB : Prop :=
  (separationA polyA xfA polyB xfB >? totalRadius polyA polyB)%f32 = false /\
  (separationB polyA xfA polyB xfB >? totalRadius polyA polyB)%f32 = false /\
  referenceEdgeValid polyA xfA polyB xfB = true /\
  (2 <= length (clipPoints1 polyA xfA polyB xfB))%nat /\
  (2 <= length (clipPoints2 polyA xfA polyB xfB))%nat.

(** The outward normal of the reference face in world space: the direction
    from the first vertex of the reference edge to the next one, made unit,
    turned by the rotation of the reference polygon's placement, and
    crossed with 1. *)
Definition referenceFaceNormal (r : b2ReferenceChoice) : b2Vec2 :=
  let v11 := vertex_at (m_vertices (poly1 r)) (edge1 r) in
  let v12 := vertex_at (m_vertices (poly1 r))
                       ((edge1 r + 1) mod m_count (poly1 r)) in
  b2Cross_vs (b2Mul_rv (xq (xf1 r)) (vnormalize (vsub v12 v11))) one.

(** The penetration depth of a world point: its signed distance along the
    reference face normal, less the face offset, which is the signed
    distance of the first vertex of the reference edge along that normal. *)
Definition penetrationDepth (r : b2ReferenceChoice) (p : b2Vec2) : float32 :=
  let n := referenceFaceNormal r in
  let v11 := b2Mul_xv (xf1 r) (vertex_at (m_vertices (poly1 r)) (edge1 r)) in
  (b2Dot n p - b2Dot n v11)%f32.

(** The clipped points whose penetration depth is at most the total radius,
    in slot order. *)
Definition keptPoints polyA xfA polyB xfB : list b2ClipVertex :=
  List.filter
    (fun c => (penetrationDepth (referenceOf polyA xfA polyB xfB) (cv_v c)
               <=? totalRadius polyA polyB)%f32)
    [clip_at (clipPoints2 polyA xfA polyB xfB) 0;
     clip_at (clipPoints2 polyA xfA polyB xfB) 1].

(** The stability the spec asks of the tie-break: perturbing the placement
    of B so that each separation moves by less than the tolerance leaves
    the reference role where it was. *)
Definition referenceStable polyA xfA polyB xfB xfB' : Prop :=
  (SFabs (separationA polyA xfA polyB xfB' - separationA polyA xfA polyB xfB)
   <? k_tol b2_linearSlop)%f32 = true ->
  (SFabs (separationB polyA xfA polyB xfB' - separationB polyA xfA polyB xfB)
   <? k_tol b2_linearSlop)%f32 = true ->
  flip (referenceOf polyA xfA polyB xfB') =
  flip (referenceOf polyA xfA polyB xfB).

End ManifoldValues.

(** ** Signs of binary32 values *)

(** Not below zero: a zero of either sign, a positive finite value,
    [+infinity], or NaN (which compares below nothing). *)
Definition not_negative (x : float32) : Prop :=
  match x with
  | S754_zero _ | S754_nan => True
  | S754_infinity s | S754_finite s _ _ => s = false
  end.

Definition strictly_positive (x : float32) : Prop :=
  match x with
  | S754_infinity false | S754_finite false _ _ => True
  | _ => False
  end.

(** ** The time-of-impact driver *)

(** The reported time lies in the sweep interval [[0, tmax]]. *)
Definition timeInRange (tmax t : float32) : Prop :=
  leb zero t = true /\ leb t tmax = true.

(** One of the four states the driver reports. *)
Definition reported (s : cb2TOIState) : Prop :=
  s = e_failed \/ s = e_overlapped \/ s = e_touching \/ s = e_separated.

(** ** Concrete shapes and placements *)

Definition vec (a b : Z) : b2Vec2 := mkVec2 (of_Z a) (of_Z b).

(** The box built by [SetAsBox(hx, hy)], with no skin. *)
Definition boxShape (hx hy : Z) : b2PolygonShape :=
  mkPolygon [vec (- hx) (- hy); vec hx (- hy); vec hx hy; vec (- hx) hy]
            [vec 0 (-1); vec 1 0; vec 0 1; vec (-1) 0] 4 zero.

(** A placement without rotation. *)
Definition translation (x y : float32) : b2Transform :=
  mkTransform (mkVec2 x y) (mkRot zero one).

Definition emptyManifold : b2Manifold :=
  mkManifold (replicate 2 (mkManifoldPoint b2Vec2_zero (mkFeature 0 0 e_vertex e_vertex)))
             b2Vec2_zero b2Vec2_zero e_circles 0.

(** A coordinate near the top of the format: finite, but the difference of
    two such placements overflows. *)
Definition farOut : float32 := of_Z (3 * 10 ^ 38).

(** A square of half-diagonal [r] standing on a corner. *)
Definition diamondShape (r : Z) : b2PolygonShape :=
  mkPolygon [vec r 0; vec 0 r; vec (- r) 0; vec 0 (- r)]
            [vnormalize (vec 1 1); vnormalize (vec (-1) 1);
             vnormalize (vec (-1) (-1)); vnormalize (vec 1 (-1))] 4 zero.

(** Two placements of the diamond one unit in the last place apart, near
    x = 1.584079. *)
Definition nearThreshold : b2Transform :=
  translation (S754_finite false 13288218 (-23)) zero.

Definition pastThreshold : b2Transform :=
  translation (S754_finite false 13288219 (-23)) zero.



(** [2^-100]: a length whose square is below the smallest binary32 value. *)
Definition tiny : float32 := S754_finite false 8388608 (-123).

(** A box of half-width [tiny], with its four unit normals. *)
Definition tinyBox : b2PolygonShape :=
  mkPolygon [mkVec2 (- tiny)%f32 (- tiny)%f32; mkVec2 tiny (- tiny)%f32;
             mkVec2 tiny tiny; mkVec2 (- tiny)%f32 tiny]
            [vec 0 (-1); vec 1 0; vec 0 1; vec (-1) 0] 4 zero.


(** The unit box with a skin of radius [0.25]. *)
Definition skinnedBox : b2PolygonShape :=
  mkPolygon (m_vertices (boxShape 1 1)) (m_normals (boxShape 1 1)) 4 (of_ratio 1 4).

(** The builder with the published slop and the clipper of the component
    design. *)
Definition collide : b2Manifold -> b2PolygonShape -> b2Transform ->
                     b2PolygonShape -> b2Transform -> option b2Manifold :=
  b2CollidePolygons b2_linearSlop_default b2ClipSegmentToLine.

(** The contact of two unit boxes whose centres are 1.5 apart along x: the
    normal is +x, the local point is the middle (1, 0) of the right edge of
    A, and the two points are the left corners (-1, 1) and (-1, -1) of B in
    the frame of B. *)
Definition overlappingContact : b2Manifold :=
  mkManifold
    [mkManifoldPoint (vec (-1) 1) (mkFeature 1 3 e_face e_vertex);
     mkManifoldPoint (vec (-1) (-1)) (mkFeature 1 0 e_face e_vertex)]
    (mkVec2 one (- zero)%f32) (vec 1 0) e_faceA 2.

(** A head-on approach seen through constant leaves: the gap is 2, the
    closing speed is bounded by 1, the interval is [[0, 1]]. *)
Definition constantGapInput : cb2TOIInput unit unit :=
  mkTOIInput unit unit tt tt tt tt one.

Definition constantGapQuery : cb2TOIOutput :=
  cb2TimeOfImpact unit unit
    (fun _ _ => of_Z 2) (fun _ => of_ratio 1 100) (fun _ _ => one)
    (of_ratio 1 1000000) 20 constantGapInput.

(** * Properties *)

(** ** The order of binary32 comparisons *)

Lemma key_lt_irrefl (a : Z * Z * Z) : ~ key_lt a a.
Proof. unfold key_lt. lia. Qed.

Lemma key_lt_trans (a b c : Z * Z * Z) : key_lt a b -> key_lt b c -> key_lt a c.
Proof. unfold key_lt. lia. Qed.


Lemma compare_key (x y : float32) (c : comparison) :
  SFcompare x y = Some c ->
  exists kx ky, order_key x = Some kx /\ order_key y = Some ky /\ key_rel c kx ky.
Proof.
  destruct x as [sx|sx| |sx mx ex], y as [sy|sy| |sy my ey];
    try destruct sx; try destruct sy; simpl; try discriminate;
    intros [= <-]; eexists _, _; (split; [reflexivity|]); (split; [reflexivity|]).
  all: change (Pos.compare_cont Eq ?a ?b) with (Pos.compare a b).
  all: try (destruct (Z.compare_spec ex ey); try destruct (Pos.compare_spec mx my);
            subst); unfold key_rel, key_lt; simpl; try reflexivity; lia.
Qed.

Lemma compare_defined (x y : float32) (kx ky : Z * Z * Z) :
  order_key x = Some kx -> order_key y = Some ky ->
  exists c, SFcompare x y = Some c.
Proof.
  destruct x as [sx|sx| |sx mx ex], y as [sy|sy| |sy my ey]; simpl;
    try discriminate; intros _ _; eexists; reflexivity.
Qed.

Lemma compare_of_keys (x y : float32) (kx ky : Z * Z * Z) :
  order_key x = Some kx -> order_key y = Some ky ->
  exists c, SFcompare x y = Some c /\ key_rel c kx ky.
Proof.
  intros Hx Hy. destruct (compare_defined x y kx ky Hx Hy) as [c Hc].
  exists c. split; [assumption|].
  destruct (compare_key x y c Hc) as (kx' & ky' & Hx' & Hy' & Hrel).
  congruence.
Qed.

Lemma ltb_key (x y : float32) :
  ltb x y = true <->
  exists kx ky, order_key x = Some kx /\ order_key y = Some ky /\ key_lt kx ky.
Proof.
  unfold ltb, SFltb. split.
  - destruct (SFcompare x y) as [[]|] eqn:E; try discriminate.
    intros _. exact (compare_key x y Lt E).
  - intros (kx & ky & Hx & Hy & Hlt).
    destruct (compare_of_keys x y kx ky Hx Hy) as ([] & -> & Hrel);
      simpl in Hrel; [subst|reflexivity|].
    + exfalso. exact (key_lt_irrefl _ Hlt).
    + exfalso. exact (key_lt_irrefl _ (key_lt_trans _ _ _ Hlt Hrel)).
Qed.

Lemma leb_key (x y : float32) :
  leb x y = true <->
  exists kx ky, order_key x = Some kx /\ order_key y = Some ky /\ ~ key_lt ky kx.
Proof.
  unfold leb, SFleb. split.
  - destruct (SFcompare x y) as [[]|] eqn:E; try discriminate; intros _;
      destruct (compare_key x y _ E) as (kx & ky & Hx & Hy & Hrel);
      exists kx, ky; (split; [assumption|]); (split; [assumption|]);
      simpl in Hrel.
    + subst. apply key_lt_irrefl.
    + intros H. exact (key_lt_irrefl _ (key_lt_trans _ _ _ Hrel H)).
  - intros (kx & ky & Hx & Hy & Hnlt).
    destruct (compare_of_keys x y kx ky Hx Hy) as ([] & -> & Hrel);
      simpl in Hrel; try reflexivity.
    contradiction.
Qed.

Lemma is_nan_key (x : float32) :
  is_nan x = false <-> exists k, order_key x = Some k.
Proof.
  destruct x as [s|s| |s m e]; try destruct s; simpl; split;
    try discriminate; try (intros [k [=]]); eauto.
Qed.

(** Turn every comparison among the hypotheses and in the goal into its
    statement about keys, then decide by arithmetic. *)
Ltac key_intro :=
  repeat match goal with
         | H : ltb _ _ = true |- _ => apply ltb_key in H; destruct H as (? & ? & ? & ? & H)
         | H : leb _ _ = true |- _ => apply leb_key in H; destruct H as (? & ? & ? & ? & H)
         | H : is_nan _ = false |- _ => apply is_nan_key in H; destruct H as (? & H)
         end;
  repeat match goal with
         | H1 : order_key ?x = Some ?a, H2 : order_key ?x = Some ?b |- _ =>
             assert (a = b) by congruence; subst b; clear H2
         end.

Ltac key_arith :=
  unfold key_lt in *;
  repeat match goal with
         | k : (Z * Z * Z)%type |- _ => destruct k as [[? ?] ?]
         end;
  simpl in *; lia.

Lemma ltb_irrefl (x : float32) : ltb x x = false.
Proof.
  destruct (ltb x x) eqn:E; [|reflexivity].
  key_intro. exfalso. key_arith.
Qed.

Lemma ltb_trans (x y z : float32) :
  ltb x y = true -> ltb y z = true -> ltb x z = true.
Proof.
  intros Hxy Hyz. key_intro. apply ltb_key.
  eexists _, _. split; [eassumption|]. split; [eassumption|]. key_arith.
Qed.

Lemma ltb_asym (x y : float32) : ltb x y = true -> ltb y x = false.
Proof.
  intros Hxy. destruct (ltb y x) eqn:E; [|reflexivity].
  pose proof (ltb_trans _ _ _ Hxy E) as H. rewrite ltb_irrefl in H. discriminate.
Qed.

Lemma ltb_leb_false (x y : float32) : ltb x y = true -> leb y x = false.
Proof.
  intros Hxy. destruct (leb y x) eqn:E; [|reflexivity].
  key_intro. exfalso. key_arith.
Qed.

Lemma leb_not_nan (x y : float32) :
  leb x y = true -> is_nan x = false /\ is_nan y = false.
Proof.
  intros H. key_intro. split; apply is_nan_key; eauto.
Qed.

Lemma leb_trans (x y z : float32) :
  leb x y = true -> leb y z = true -> leb x z = true.
Proof.
  intros Hxy Hyz. key_intro. apply leb_key.
  eexists _, _. split; [eassumption|]. split; [eassumption|]. key_arith.
Qed.

Lemma ltb_false_leb (x y : float32) :
  is_nan x = false -> is_nan y = false -> ltb y x = false -> leb x y = true.
Proof.
  intros Hx Hy Hn. key_intro. apply leb_key.
  eexists _, _. split; [eassumption|]. split; [eassumption|].
  intros Hlt. enough (ltb y x = true) by congruence.
  apply ltb_key. eauto.
Qed.

Lemma leb_refl (x : float32) : is_nan x = false -> leb x x = true.
Proof. intros H. apply ltb_false_leb; auto using ltb_irrefl. Qed.




(** ** Loops that keep the best candidate seen *)

Section BestSoFarFacts.

Context {A : Type}.
Variable beats : A -> A -> bool.
Hypothesis beats_irrefl : forall a, beats a a = false.
Hypothesis beats_trans :
  forall a b c, beats a b = true -> beats b c = true -> beats a c = true.
Variable f : Z -> A.

Lemma bestValue_indexed (l : list Z) (i0 : Z) (init : A) :
  bestValue beats f init l = (bestIndexed beats f (i0, init) l).2.
Proof.
  revert i0 init. induction l as [|a l IH]; intros i0 init; [reflexivity|].
  unfold bestValue, bestIndexed in *. simpl.
  destruct (beats (f a) init); apply IH.
Qed.

Lemma bestIndexed_spec (l : list Z) (i0 : Z) (init : A) :
  let r := bestIndexed beats f (i0, init) l in
  (forall i, i ∈ l -> beats (f i) r.2 = false) /\
  ((r.1 = i0 /\ r.2 = init) \/
   (r.1 ∈ l /\ r.2 = f r.1 /\ beats r.2 init = true)).
Proof.
  revert i0 init. induction l as [|a l IH]; intros i0 init; simpl.
  - split; [intros i Hi; inversion Hi|]. left. split; reflexivity.
  - unfold bestIndexed. simpl. fold (bestIndexed beats f).
    destruct (beats (f a) init) eqn:Hb.
    + specialize (IH a (f a)). simpl in IH.
      fold (bestIndexed beats f (a, f a) l).
      destruct IH as [Hall Hsel]. split.
      * intros i Hi. apply elem_of_cons in Hi as [->|Hi]; [|auto].
        destruct Hsel as [[_ ->]|(_ & _ & Hlt)]; [apply beats_irrefl|].
        destruct (beats (f a) (bestIndexed beats f (a, f a) l).2) eqn:E; [|reflexivity].
        pose proof (beats_trans _ _ _ E Hlt) as Hc.
        rewrite beats_irrefl in Hc. discriminate.
      * right. destruct Hsel as [[-> ->]|(Hin & Heq & Hlt)].
        -- split; [left|]. split; [reflexivity|assumption].
        -- split; [right; assumption|]. split; [assumption|].
           eapply beats_trans; eassumption.
    + specialize (IH i0 init). simpl in IH.
      fold (bestIndexed beats f (i0, init) l).
      destruct IH as [Hall Hsel]. split.
      * intros i Hi. apply elem_of_cons in Hi as [->|Hi]; [|auto].
        destruct Hsel as [[_ ->]|(_ & _ & Hlt)]; [assumption|].
        destruct (beats (f a) (bestIndexed beats f (i0, init) l).2) eqn:E; [|reflexivity].
        pose proof (beats_trans _ _ _ E Hlt) as Hc. congruence.
      * destruct Hsel as [?|(Hin & Heq & Hlt)]; [left; assumption|].
        right. split; [right; assumption|]. split; assumption.
Qed.

End BestSoFarFacts.

Lemma elem_of_seqZ_0 (n i : Z) : i ∈ seqZ 0 n <-> 0 <= i < n.
Proof. rewrite elem_of_seqZ. lia. Qed.

Lemma gtb_irrefl (a : float32) : (fun x y => ltb y x) a a = false.
Proof. apply ltb_irrefl. Qed.

Lemma gtb_trans (a b c : float32) :
  (fun x y => ltb y x) a b = true -> (fun x y => ltb y x) b c = true ->
  (fun x y => ltb y x) a c = true.
Proof. simpl. intros H1 H2. exact (ltb_trans _ _ _ H2 H1). Qed.

Lemma deepestPoint_bestValue poly1 xf1 poly2 xf2 i :
  deepestPoint poly1 xf1 poly2 xf2 i =
  bestValue ltb (edgeVertexSeparation poly1 xf1 poly2 xf2 i)
            b2_maxFloat (seqZ 0 (m_count poly2)).
Proof. reflexivity. Qed.

Lemma b2FindMaxSeparation_bestIndexed poly1 xf1 poly2 xf2 :
  b2FindMaxSeparation poly1 xf1 poly2 xf2 =
  bestIndexed (fun x y => ltb y x) (deepestPoint poly1 xf1 poly2 xf2)
              (0, neg b2_maxFloat) (seqZ 0 (m_count poly1)).
Proof. reflexivity. Qed.

Lemma incidentIndex_bestIndexed normal1 poly2 :
  incidentIndex normal1 poly2 =
  bestIndexed ltb (fun i => b2Dot normal1 (vertex_at (m_normals poly2) i))
              (0, b2_maxFloat) (seqZ 0 (m_count poly2)).
Proof. reflexivity. Qed.

(** ** The separation finder *)




Lemma b2FindMaxSeparation_index (poly1 : b2PolygonShape) (xf1 : b2Transform)
    (poly2 : b2PolygonShape) (xf2 : b2Transform) :
  1 <= m_count poly1 ->
  0 <= (b2FindMaxSeparation poly1 xf1 poly2 xf2).1 < m_count poly1.
Proof.
  intros Hc. rewrite b2FindMaxSeparation_bestIndexed.
  destruct (bestIndexed_spec (fun x y => ltb y x) gtb_irrefl gtb_trans
              (deepestPoint poly1 xf1 poly2 xf2) (seqZ 0 (m_count poly1))
              0 (neg b2_maxFloat)) as [_ [[-> _]|(Hin & _)]].
  - lia.
  - apply elem_of_seqZ_0 in Hin. exact Hin.
Qed.



Lemma boxShape_count (hx hy : Z) : m_count (boxShape hx hy) = 4.
Proof. reflexivity. Qed.

Ltac index_cases H :=
  rewrite ?boxShape_count in H;
  match type of H with
  | 0 <= ?i < 4 =>
      let Hcases := fresh "Hcases" in
      assert (i = 0 \/ i = 1 \/ i = 2 \/ i = 3) as Hcases by lia;
      destruct Hcases as [->|[->|[->| ->]]]
  end.



(** ** The incident edge selector *)


Lemma wrap_successor (i n : Z) :
  0 <= i < n -> (if i + 1 <? n then i + 1 else 0) = (i + 1) mod n.
Proof.
  intros H. destruct (Z.ltb_spec (i + 1) n).
  - symmetry. apply Z.mod_small. lia.
  - assert (i + 1 = n) as -> by lia. symmetry. apply Z.mod_same. lia.
Qed.


Lemma b2FindIncidentEdge_asserted
    (poly1 : b2PolygonShape) (xf1 : b2Transform) (edge1 : Z)
    (poly2 : b2PolygonShape) (xf2 : b2Transform) :
  0 <= edge1 < m_count poly1 ->
  b2FindIncidentEdge poly1 xf1 edge1 poly2 xf2 =
  let index := (incidentIndex (incidentNormal1 poly1 xf1 edge1 xf2) poly2).1 in
  let i2 := if index + 1 <? m_count poly2 then index + 1 else 0 in
  Some [ mkClipVertex (b2Mul_xv xf2 (vertex_at (m_vertices poly2) index))
                      (mkFeature (to_uint8 edge1) (to_uint8 index) e_face e_vertex);
         mkClipVertex (b2Mul_xv xf2 (vertex_at (m_vertices poly2) i2))
                      (mkFeature (to_uint8 edge1) (to_uint8 i2) e_face e_vertex) ].
Proof.
  intros He. unfold b2FindIncidentEdge.
  destruct (Z.leb_spec 0 edge1); [|lia].
  destruct (Z.ltb_spec edge1 (m_count poly1)); [|lia].
  reflexivity.
Qed.

Lemma b2FindIncidentEdge_aborts
    (poly1 : b2PolygonShape) (xf1 : b2Transform) (edge1 : Z)
    (poly2 : b2PolygonShape) (xf2 : b2Transform) :
  ~ 0 <= edge1 < m_count poly1 ->
  b2FindIncidentEdge poly1 xf1 edge1 poly2 xf2 = None.
Proof.
  intros He. unfold b2FindIncidentEdge.
  destruct (Z.leb_spec 0 edge1); [|reflexivity].
  destruct (Z.ltb_spec edge1 (m_count poly1)); [lia|reflexivity].
Qed.




(** ** The manifold builder *)

Section ManifoldBuilder.

Variable b2_linearSlop : float32.
Variable clipSegment :
  list b2ClipVertex -> b2Vec2 -> float32 -> Z -> list b2ClipVertex.

Lemma referenceEdgeValid_spec polyA xfA polyB xfB :
  referenceEdgeValid b2_linearSlop polyA xfA polyB xfB = true <->
  0 <= edge1 (referenceOf b2_linearSlop polyA xfA polyB xfB)
    < m_count (poly1 (referenceOf b2_linearSlop polyA xfA polyB xfB)).
Proof.
  unfold referenceEdgeValid. cbv zeta.
  rewrite andb_true_iff, Z.leb_le, Z.ltb_lt. reflexivity.
Qed.

(** The assertion holds exactly when the polygon chosen as reference has a
    vertex: the edge index comes from [b2FindMaxSeparation] on it. *)
Lemma referenceEdgeValid_nonempty polyA xfA polyB xfB :
  referenceEdgeValid b2_linearSlop polyA xfA polyB xfB = true <->
  1 <= m_count (poly1 (referenceOf b2_linearSlop polyA xfA polyB xfB)).
Proof.
  rewrite referenceEdgeValid_spec. split; [lia|].
  unfold referenceOf, chooseReference.
  destruct (_ >? _)%f32; cbn [poly1 edge1]; apply b2FindMaxSeparation_index.
Qed.

Lemma incidentEdgeOf_asserted polyA xfA polyB xfB :
  referenceEdgeValid b2_linearSlop polyA xfA polyB xfB = true ->
  let r := referenceOf b2_linearSlop polyA xfA polyB xfB in
  b2FindIncidentEdge (poly1 r) (xf1 r) (edge1 r) (poly2 r) (xf2 r) =
  Some (incidentEdgeOf b2_linearSlop polyA xfA polyB xfB).
Proof.
  intros Hv. apply referenceEdgeValid_spec in Hv. cbv zeta.
  unfold incidentEdgeOf. cbv zeta.
  rewrite (b2FindIncidentEdge_asserted _ _ _ _ _ Hv). reflexivity.
Qed.

Lemma b2CollidePolygons_unfold manifold polyA xfA polyB xfB :
  b2CollidePolygons b2_linearSlop clipSegment manifold polyA xfA polyB xfB =
  let m0 := set_pointCount manifold 0 in
  if (separationA polyA xfA polyB xfB >? totalRadius polyA polyB)%f32 then Some m0 else
  if (separationB polyA xfA polyB xfB >? totalRadius polyA polyB)%f32 then Some m0 else
  let r := referenceOf b2_linearSlop polyA xfA polyB xfB in
  let f := frameOf b2_linearSlop polyA xfA polyB xfB in
  let m1 := set_type m0 (choice_type r) in
  if negb (referenceEdgeValid b2_linearSlop polyA xfA polyB xfB) then None else
  if Z.of_nat (length (clipPoints1 b2_linearSlop clipSegment polyA xfA polyB xfB)) <? 2
  then Some m1 else
  if Z.of_nat (length (clipPoints2 b2_linearSlop clipSegment polyA xfA polyB xfB)) <? 2
  then Some m1 else
  let e := emitPoints r f (totalRadius polyA polyB)
             (clipPoints2 b2_linearSlop clipSegment polyA xfA polyB xfB) (points manifold) in
  Some (mkManifold e.1 (frame_localNormal f) (planePoint f) (choice_type r) e.2).
Proof.
  cbv zeta.
  destruct (referenceEdgeValid b2_linearSlop polyA xfA polyB xfB) eqn:Hv.
  - pose proof (incidentEdgeOf_asserted _ _ _ _ Hv) as He. cbv zeta in He.
    unfold b2CollidePolygons, clipPoints2, clipPoints1.
    unfold frameOf, referenceOf, separationA, separationB in *.
    destruct (b2FindMaxSeparation polyA xfA polyB xfB) as [edgeA sA].
    destruct (b2FindMaxSeparation polyB xfB polyA xfA) as [edgeB sB].
    cbn [fst snd] in *.
    destruct (sA >? totalRadius polyA polyB)%f32; [reflexivity|].
    destruct (sB >? totalRadius polyA polyB)%f32; [reflexivity|].
    rewrite He. cbn [negb].
    repeat match goal with
           | |- (if ?c then _ else _) = (if ?c then _ else _) =>
               destruct c; [reflexivity|]
           end.
    destruct (emitPoints _ _ _ _ _) as [pts n]. reflexivity.
  - assert (He : ~ 0 <= edge1 (referenceOf b2_linearSlop polyA xfA polyB xfB)
                   < m_count (poly1 (referenceOf b2_linearSlop polyA xfA polyB xfB)))
      by (rewrite <- referenceEdgeValid_spec, Hv; discriminate).
    pose proof (b2FindIncidentEdge_aborts _
                  (xf1 (referenceOf b2_linearSlop polyA xfA polyB xfB)) _
                  (poly2 (referenceOf b2_linearSlop polyA xfA polyB xfB))
                  (xf2 (referenceOf b2_linearSlop polyA xfA polyB xfB)) He) as Ha.
    unfold b2CollidePolygons.
    unfold referenceOf, separationA, separationB in *.
    destruct (b2FindMaxSeparation polyA xfA polyB xfB) as [edgeA sA].
    destruct (b2FindMaxSeparation polyB xfB polyA xfA) as [edgeB sB].
    cbn [fst snd] in *.
    destruct (sA >? totalRadius polyA polyB)%f32; [reflexivity|].
    destruct (sB >? totalRadius polyA polyB)%f32; [reflexivity|].
    rewrite Ha. reflexivity.
Qed.

Lemma emitPoints_kept r f total cps pts :
  length pts = 2%nat ->
  let kept := List.filter (fun c => (pointSeparation f c <=? total)%f32)
                [clip_at cps 0; clip_at cps 1] in
  emitPoints r f total cps pts =
  ((manifoldPointOf r <$> kept) ++ drop (length kept) pts,
   Z.of_nat (length kept)).
Proof.
  intros Hlen. destruct pts as [|p0 [|p1 [|p2 pts]]]; try discriminate.
  unfold emitPoints.
  change (seqZ 0 b2_maxManifoldPoints) with [0; 1].
  cbn [foldl List.filter].
  destruct (pointSeparation f (clip_at cps 0) <=? total)%f32;
    destruct (pointSeparation f (clip_at cps 1) <=? total)%f32; reflexivity.
Qed.


(** The distance the loop computes at line 218 is the penetration depth
    below the reference face. *)
Lemma pointSeparation_depth polyA xfA polyB xfB (c : b2ClipVertex) :
  referenceEdgeValid b2_linearSlop polyA xfA polyB xfB = true ->
  pointSeparation (frameOf b2_linearSlop polyA xfA polyB xfB) c =
  penetrationDepth (referenceOf b2_linearSlop polyA xfA polyB xfB) (cv_v c).
Proof.
  intros Hv. apply referenceEdgeValid_spec in Hv.
  unfold pointSeparation, penetrationDepth, referenceFaceNormal, frameOf,
    referenceFrame.
  cbn [normal frontOffset].
  rewrite (wrap_successor _ _ Hv). reflexivity.
Qed.

Lemma keptPoints_emitted polyA xfA polyB xfB :
  referenceEdgeValid b2_linearSlop polyA xfA polyB xfB = true ->
  keptPoints b2_linearSlop clipSegment polyA xfA polyB xfB =
  List.filter
    (fun c => (pointSeparation (frameOf b2_linearSlop polyA xfA polyB xfB) c
               <=? totalRadius polyA polyB)%f32)
    [clip_at (clipPoints2 b2_linearSlop clipSegment polyA xfA polyB xfB) 0;
     clip_at (clipPoints2 b2_linearSlop clipSegment polyA xfA polyB xfB) 1].
Proof.
  intros Hv. unfold keptPoints. cbn [List.filter].
  rewrite !(pointSeparation_depth _ _ _ _ _ Hv). reflexivity.
Qed.

Lemma b2CollidePolygons_success manifold polyA xfA polyB xfB :
  clipSucceeds b2_linearSlop clipSegment polyA xfA polyB xfB ->
  b2CollidePolygons b2_linearSlop clipSegment manifold polyA xfA polyB xfB =
  let r := referenceOf b2_linearSlop polyA xfA polyB xfB in
  let f := frameOf b2_linearSlop polyA xfA polyB xfB in
  let e := emitPoints r f (totalRadius polyA polyB)
             (clipPoints2 b2_linearSlop clipSegment polyA xfA polyB xfB) (points manifold) in
  Some (mkManifold e.1 (frame_localNormal f) (planePoint f) (choice_type r) e.2).
Proof.
  intros (HA & HB & Hv & H1 & H2). rewrite b2CollidePolygons_unfold.
  cbv zeta. rewrite HA, HB, Hv. cbn [negb].
  destruct (Z.ltb_spec (Z.of_nat (length (clipPoints1 b2_linearSlop clipSegment polyA xfA polyB xfB))) 2); [lia|].
  destruct (Z.ltb_spec (Z.of_nat (length (clipPoints2 b2_linearSlop clipSegment polyA xfA polyB xfB))) 2); [lia|].
  reflexivity.
Qed.

(** After a successful clip the manifold holds the kept points, in slot
    order, in its first slots. *)
Lemma b2CollidePolygons_kept manifold polyA xfA polyB xfB :
  length (points manifold) = 2%nat ->
  clipSucceeds b2_linearSlop clipSegment polyA xfA polyB xfB ->
  let r := referenceOf b2_linearSlop polyA xfA polyB xfB in
  let f := frameOf b2_linearSlop polyA xfA polyB xfB in
  let kept := keptPoints b2_linearSlop clipSegment polyA xfA polyB xfB in
  b2CollidePolygons b2_linearSlop clipSegment manifold polyA xfA polyB xfB =
  Some (mkManifold ((manifoldPointOf r <$> kept) ++ drop (length kept) (points manifold))
          (frame_localNormal f) (planePoint f) (choice_type r)
          (Z.of_nat (length kept))).
Proof.
  intros Hlen Hok. cbv zeta.
  rewrite (b2CollidePolygons_success _ _ _ _ _ Hok). cbv zeta.
  rewrite (emitPoints_kept _ _ _ _ _ Hlen). cbv zeta.
  destruct Hok as (_ & _ & Hv & _).
  rewrite (keptPoints_emitted _ _ _ _ Hv). reflexivity.
Qed.

End ManifoldBuilder.

Section ManifoldClaims.

Variable b2_linearSlop : float32.
Variable clipSegment :
  list b2ClipVertex -> b2Vec2 -> float32 -> Z -> list b2ClipVertex.

(** C1: when the best separation with A as reference, or the best
    separation with B as reference, exceeds the sum of the two skin radii,
    [b2CollidePolygons] returns, and leaves a manifold with
    [pointCount = 0]. *)
Theorem b2CollidePolygons_separated_no_contact manifold polyA xfA polyB xfB :
  (separationA polyA xfA polyB xfB >? totalRadius polyA polyB)%f32 = true \/
  (separationB polyA xfA polyB xfB >? totalRadius polyA polyB)%f32 = true ->
  pointCount <$> b2CollidePolygons b2_linearSlop clipSegment manifold polyA xfA polyB xfB
  = Some 0.
Proof.
  intros H. rewrite b2CollidePolygons_unfold. cbv zeta.
  destruct (separationA polyA xfA polyB xfB >? totalRadius polyA polyB)%f32;
    [reflexivity|].
  destruct H as [H|H]; [discriminate|]. rewrite H. reflexivity.
Qed.

(** C6: when the first clip of the incident edge, or the second clip of its
    result, yields fewer than two points, [b2CollidePolygons] returns a
    manifold with [pointCount = 0].  The clips come after the assertion on
    the reference edge, which holds whenever the reference polygon has a
    vertex. *)
Theorem b2CollidePolygons_short_clip_no_contact manifold polyA xfA polyB xfB :
  referenceEdgeValid b2_linearSlop polyA xfA polyB xfB = true ->
  (length (clipPoints1 b2_linearSlop clipSegment polyA xfA polyB xfB) < 2)%nat \/
  (length (clipPoints2 b2_linearSlop clipSegment polyA xfA polyB xfB) < 2)%nat ->
  pointCount <$> b2CollidePolygons b2_linearSlop clipSegment manifold polyA xfA polyB xfB
  = Some 0.
Proof.
  intros Hv H. rewrite b2CollidePolygons_unfold. cbv zeta.
  destruct (separationA polyA xfA polyB xfB >? totalRadius polyA polyB)%f32;
    [reflexivity|].
  destruct (separationB polyA xfA polyB xfB >? totalRadius polyA polyB)%f32;
    [reflexivity|].
  rewrite Hv. cbn [negb].
  destruct (Z.ltb_spec
              (Z.of_nat (length (clipPoints1 b2_linearSlop clipSegment polyA xfA polyB xfB))) 2);
    [reflexivity|].
  destruct (Z.ltb_spec
              (Z.of_nat (length (clipPoints2 b2_linearSlop clipSegment polyA xfA polyB xfB))) 2);
    [reflexivity|].
  lia.
Qed.


(** C8: every manifold point carries the tag of the clipped point it comes
    from; the per-shape components (indexA/indexB, typeA/typeB) are
    exchanged exactly when polygon B was chosen as reference, that is when
    the manifold is of type face-of-B, and stored as they are when A is the
    reference. *)
Theorem b2CollidePolygons_swaps_features_on_flip
    manifold polyA xfA polyB xfB :
  length (points manifold) = 2%nat ->
  clipSucceeds b2_linearSlop clipSegment polyA xfA polyB xfB ->
  exists M,
  b2CollidePolygons b2_linearSlop clipSegment manifold polyA xfA polyB xfB = Some M /\
  let r := referenceOf b2_linearSlop polyA xfA polyB xfB in
  let kept := keptPoints b2_linearSlop clipSegment polyA xfA polyB xfB in
  (flip r = true /\ mtype M = e_faceB /\ poly1 r = polyB \/
   flip r = false /\ mtype M = e_faceA /\ poly1 r = polyA) /\
  forall (k : nat) (c : b2ClipVertex),
    kept !! k = Some c ->
    (Z.of_nat k < pointCount M) /\
    exists p, points M !! k = Some p /\
      (mtype M = e_faceB ->
         indexA (mp_id p) = indexB (cv_id c) /\
         indexB (mp_id p) = indexA (cv_id c) /\
         typeA (mp_id p) = typeB (cv_id c) /\
         typeB (mp_id p) = typeA (cv_id c)) /\
      (mtype M = e_faceA -> mp_id p = cv_id c).
Proof.
  intros Hlen Hok.
  eexists. split; [apply (b2CollidePolygons_kept _ _ _ _ _ _ _ Hlen Hok)|].
  cbv zeta.
  set (kept := keptPoints b2_linearSlop clipSegment polyA xfA polyB xfB).
  cbn [pointCount points mtype].
  assert (Hr : flip (referenceOf b2_linearSlop polyA xfA polyB xfB) = true /\
               choice_type (referenceOf b2_linearSlop polyA xfA polyB xfB) = e_faceB /\
               poly1 (referenceOf b2_linearSlop polyA xfA polyB xfB) = polyB \/
               flip (referenceOf b2_linearSlop polyA xfA polyB xfB) = false /\
               choice_type (referenceOf b2_linearSlop polyA xfA polyB xfB) = e_faceA /\
               poly1 (referenceOf b2_linearSlop polyA xfA polyB xfB) = polyA).
  { unfold referenceOf, chooseReference.
    destruct (_ >? _)%f32; [left|right]; repeat split. }
  split; [exact Hr|].
  intros k c Hk.
  assert (Hlt : (k < length kept)%nat) by (eapply lookup_lt_Some; eassumption).
  split; [lia|].
  exists (manifoldPointOf (referenceOf b2_linearSlop polyA xfA polyB xfB) c).
  split.
  - rewrite lookup_app_l by (rewrite length_fmap; exact Hlt).
    rewrite list_lookup_fmap, Hk. reflexivity.
  - unfold manifoldPointOf. cbn [mp_id].
    destruct Hr as [(-> & -> & _)|(-> & -> & _)]; split; intros Ht;
      try discriminate; try reflexivity.
    repeat split.
Qed.

(** C3 (as amended): past the two early exits, polygon B is the reference
    (type face-of-B, flip set) exactly when separationB exceeds
    separationA + k_tol, with k_tol = 0.1f * b2_linearSlop, and polygon A is
    the reference in every other case; so two placements choose the same
    reference whenever their separations fall on the same side of that
    threshold, and a perturbation flips the reference only by moving
    separationB across separationA + k_tol.  The type is that of the
    manifold the routine returns, which it does when the reference edge
    passes the assertion. *)
Theorem b2CollidePolygons_reference_choice
    manifold polyA xfA polyB xfB :
  (separationA polyA xfA polyB xfB >? totalRadius polyA polyB)%f32 = false ->
  (separationB polyA xfA polyB xfB >? totalRadius polyA polyB)%f32 = false ->
  referenceEdgeValid b2_linearSlop polyA xfA polyB xfB = true ->
  exists M,
  b2CollidePolygons b2_linearSlop clipSegment manifold polyA xfA polyB xfB = Some M /\
  let r := referenceOf b2_linearSlop polyA xfA polyB xfB in
  let exceeds :=
    (separationB polyA xfA polyB xfB
     >? separationA polyA xfA polyB xfB + k_tol b2_linearSlop)%f32 in
  k_tol b2_linearSlop = (of_ratio 1 10 * b2_linearSlop)%f32 /\
  (exceeds = true <->
     mtype M = e_faceB /\ flip r = true /\ poly1 r = polyB /\ poly2 r = polyA) /\
  (exceeds = false <->
     mtype M = e_faceA /\ flip r = false /\ poly1 r = polyA /\ poly2 r = polyB) /\
  forall xfB',
    (separationB polyA xfA polyB xfB'
     >? separationA polyA xfA polyB xfB' + k_tol b2_linearSlop)%f32 = exceeds ->
    flip (referenceOf b2_linearSlop polyA xfA polyB xfB') = flip r.
Proof.
  intros HA HB Hv.
  assert (Ht : exists M,
             b2CollidePolygons b2_linearSlop clipSegment manifold
               polyA xfA polyB xfB = Some M /\
             mtype M = choice_type (referenceOf b2_linearSlop polyA xfA polyB xfB)).
  { rewrite b2CollidePolygons_unfold. cbv zeta. rewrite HA, HB, Hv. cbn [negb].
    repeat match goal with
           | |- context [if ?c then _ else _] =>
               destruct c; [eexists; split; reflexivity|]
           end.
    eexists; split; reflexivity. }
  destruct Ht as (M & HM & Ht). exists M. split; [exact HM|]. cbv zeta.
  rewrite Ht. split; [reflexivity|].
  unfold referenceOf at 1 2 3 4 5 6 7 8. unfold chooseReference.
  destruct (separationB polyA xfA polyB xfB
            >? separationA polyA xfA polyB xfB + k_tol b2_linearSlop)%f32 eqn:E;
    cbn [choice_type flip poly1 poly2].
  - split; [split; [intros _; repeat split|reflexivity]|].
    split; [split; [discriminate|intros (H & _); discriminate H]|].
    intros xfB' E'. unfold referenceOf, chooseReference. rewrite E', E. reflexivity.
  - split; [split; [discriminate|intros (H & _); discriminate H]|].
    split; [split; [intros _; repeat split|reflexivity]|].
    intros xfB' E'. unfold referenceOf, chooseReference. rewrite E', E. reflexivity.
Qed.

(** C10: with at least one vertex in each polygon, [b2FindMaxSeparation]
    returns an edge index inside the reference polygon, so the index
    [edge1] handed to [b2FindIncidentEdge] satisfies its assertion, and both
    [edge1] and its wrap-around successor index the reference polygon's
    arrays within bounds. *)
Theorem b2FindMaxSeparation_edge_in_bounds polyA xfA polyB xfB :
  1 <= m_count polyA ->
  1 <= m_count polyB ->
  let r := referenceOf b2_linearSlop polyA xfA polyB xfB in
  let f := frameOf b2_linearSlop polyA xfA polyB xfB in
  0 <= (b2FindMaxSeparation polyA xfA polyB xfB).1 < m_count polyA /\
  0 <= (b2FindMaxSeparation polyB xfB polyA xfA).1 < m_count polyB /\
  0 <= edge1 r < m_count (poly1 r) /\
  iv1 f = edge1 r /\
  iv2 f = (edge1 r + 1) mod m_count (poly1 r) /\
  0 <= iv2 f < m_count (poly1 r) /\
  (m_count (poly1 r) <= Z.of_nat (length (m_vertices (poly1 r))) ->
   is_Some (m_vertices (poly1 r) !! Z.to_nat (iv1 f)) /\
   is_Some (m_vertices (poly1 r) !! Z.to_nat (iv2 f))) /\
  (m_count (poly1 r) <= Z.of_nat (length (m_normals (poly1 r))) ->
   is_Some (m_normals (poly1 r) !! Z.to_nat (edge1 r))).
Proof.
  intros HcA HcB. cbv zeta.
  pose proof (b2FindMaxSeparation_index polyA xfA polyB xfB HcA) as HA.
  pose proof (b2FindMaxSeparation_index polyB xfB polyA xfA HcB) as HB.
  split; [exact HA|]. split; [exact HB|].
  assert (He : 0 <= edge1 (referenceOf b2_linearSlop polyA xfA polyB xfB)
               < m_count (poly1 (referenceOf b2_linearSlop polyA xfA polyB xfB))).
  { unfold referenceOf, chooseReference. destruct (_ >? _)%f32; assumption. }
  unfold frameOf, referenceFrame. cbn [iv1 iv2].
  set (r := referenceOf b2_linearSlop polyA xfA polyB xfB) in *.
  rewrite (wrap_successor _ _ He).
  assert (Hs : 0 <= (edge1 r + 1) mod m_count (poly1 r) < m_count (poly1 r))
    by (apply Z.mod_pos_bound; lia).
  split; [exact He|]. split; [reflexivity|]. split; [reflexivity|].
  split; [exact Hs|]. split.
  - intros Hcap. split; apply lookup_lt_is_Some; lia.
  - intros Hcap. apply lookup_lt_is_Some. lia.
Qed.

End ManifoldClaims.

(** ** The manifold builder on concrete pairs *)

Lemma b2CollidePolygons_separated_no_contact_witness :
  pointCount <$> collide emptyManifold (boxShape 1 1) (translation zero zero)
                         (boxShape 1 1) (translation (of_Z 3) zero) = Some 0.
Proof.
  apply b2CollidePolygons_separated_no_contact.
  left. vm_compute. reflexivity.
Defined.

(** Two coinciding boxes of half-width [2^-100]: they overlap, so neither
    separation exceeds the radius, but the square of the edge length
    underflows to zero, the unit tangent of the reference edge is not a
    number, neither are the clip distances, and the first clip keeps no
    point.  The routine leaves at the first [np < 2] exit, after writing
    the type. *)
Lemma b2CollidePolygons_short_clip_no_contact_witness :
  (separationA tinyBox (translation zero zero) tinyBox (translation zero zero)
   >? totalRadius tinyBox tinyBox)%f32 = false /\
  (separationB tinyBox (translation zero zero) tinyBox (translation zero zero)
   >? totalRadius tinyBox tinyBox)%f32 = false /\
  clipPoints1 b2_linearSlop_default b2ClipSegmentToLine
    tinyBox (translation zero zero) tinyBox (translation zero zero) = [] /\
  collide emptyManifold tinyBox (translation zero zero)
          tinyBox (translation zero zero) = Some (set_type emptyManifold e_faceA) /\
  pointCount <$> collide emptyManifold tinyBox (translation zero zero)
                         tinyBox (translation zero zero) = Some 0.
Proof.
  split; [vm_compute; reflexivity|].
  split; [vm_compute; reflexivity|].
  split; [vm_compute; reflexivity|].
  split; [vm_compute; reflexivity|].
  apply b2CollidePolygons_short_clip_no_contact.
  - vm_compute. reflexivity.
  - left. vm_compute. lia.
Defined.


Lemma b2CollidePolygons_swaps_features_on_flip_witness :
  exists M,
    collide emptyManifold (boxShape 1 1) (translation zero zero)
            (diamondShape 3) nearThreshold = Some M /\
    mtype M = e_faceB /\
    exists p, points M !! 0%nat = Some p /\
              mp_id p = mkFeature 1 1 e_vertex e_face.
Proof.
  assert (Hok : clipSucceeds b2_linearSlop_default b2ClipSegmentToLine
                  (boxShape 1 1) (translation zero zero)
                  (diamondShape 3) nearThreshold).
  { repeat split; vm_compute; try reflexivity; lia. }
  destruct (b2CollidePolygons_swaps_features_on_flip
              b2_linearSlop_default b2ClipSegmentToLine emptyManifold
              (boxShape 1 1) (translation zero zero)
              (diamondShape 3) nearThreshold eq_refl Hok)
    as (M & HM & Hr & Hpts).
  assert (Hf : flip (referenceOf b2_linearSlop_default (boxShape 1 1)
                       (translation zero zero) (diamondShape 3) nearThreshold) = true)
    by (vm_compute; reflexivity).
  assert (Ht : mtype M = e_faceB).
  { destruct Hr as [(_ & Ht & _)|(Hf' & _)]; [exact Ht|].
    rewrite Hf in Hf'. discriminate Hf'. }
  exists M. split; [exact HM|]. split; [exact Ht|].
  assert (Hk : keptPoints b2_linearSlop_default b2ClipSegmentToLine
                 (boxShape 1 1) (translation zero zero)
                 (diamondShape 3) nearThreshold !! 0%nat =
               Some (clip_at (clipPoints2 b2_linearSlop_default b2ClipSegmentToLine
                                (boxShape 1 1) (translation zero zero)
                                (diamondShape 3) nearThreshold) 0))
    by (vm_compute; reflexivity).
  destruct (Hpts _ _ Hk) as (_ & p & Hp & HB & _).
  exists p. split; [exact Hp|].
  destruct (HB Ht) as (Ha & Hb & Hc & Hd).
  destruct p as [lp [ia ib ta tb]]. cbn [mp_id indexA indexB typeA typeB] in *.
  rewrite Ha, Hb, Hc, Hd. vm_compute. reflexivity.
Defined.

Lemma b2CollidePolygons_reference_choice_witness :
  exists M,
    collide emptyManifold (boxShape 1 1) (translation zero zero)
            (diamondShape 3) nearThreshold = Some M /\
    mtype M = e_faceB.
Proof.
  destruct (b2CollidePolygons_reference_choice
              b2_linearSlop_default b2ClipSegmentToLine emptyManifold
              (boxShape 1 1) (translation zero zero)
              (diamondShape 3) nearThreshold)
    as (M & HM & _ & [HB _] & _).
  - vm_compute. reflexivity.
  - vm_compute. reflexivity.
  - vm_compute. reflexivity.
  - exists M. split; [exact HM|]. apply HB. vm_compute. reflexivity.
Defined.

(** C3 (as stated) fails: moving the diamond by one unit in the last place
    moves separationA by 2^-22 and leaves separationB unchanged, far less
    than the tolerance, and yet the reference passes from B to A. *)
Lemma b2CollidePolygons_reference_flip_counterexample :
  ~ referenceStable b2_linearSlop_default
      (boxShape 1 1) (translation zero zero) (diamondShape 3)
      nearThreshold pastThreshold.
Proof.
  unfold referenceStable. intros H.
  assert (H1 : flip (referenceOf b2_linearSlop_default (boxShape 1 1)
                       (translation zero zero) (diamondShape 3) pastThreshold) = false)
    by (vm_compute; reflexivity).
  assert (H2 : flip (referenceOf b2_linearSlop_default (boxShape 1 1)
                       (translation zero zero) (diamondShape 3) nearThreshold) = true)
    by (vm_compute; reflexivity).
  rewrite H1, H2 in H. clear H1 H2.
  assert (Hf : false = true); [|discriminate Hf].
  apply H; vm_compute; reflexivity.
Qed.

Lemma b2FindMaxSeparation_edge_in_bounds_witness :
  0 <= (b2FindMaxSeparation (boxShape 1 1) (translation zero zero)
                            (boxShape 1 1) (translation (of_ratio 3 2) zero)).1 < 4.
Proof.
  destruct (b2FindMaxSeparation_edge_in_bounds b2_linearSlop_default
              (boxShape 1 1) (translation zero zero)
              (boxShape 1 1) (translation (of_ratio 3 2) zero))
    as (H & _).
  - rewrite boxShape_count. lia.
  - rewrite boxShape_count. lia.
  - rewrite boxShape_count in H. exact H.
Defined.

(** ** Signs of binary32 results

    The time-of-impact driver adds non-negative steps to a non-negative
    time.  The facts below say that the rounded operations keep the sign
    that the exact ones have. *)

Lemma binary_round_aux_sign (sx : bool) (mx ex : Z) (lx : location) :
  match binary_round_aux prec emax sx mx ex lx with
  | S754_zero s | S754_infinity s | S754_finite s _ _ => s = sx
  | S754_nan => True
  end.
Proof.
  unfold binary_round_aux.
  destruct (shr_fexp prec emax mx ex lx) as [mrs' e'].
  destruct (shr_fexp prec emax _ e' loc_Exact) as [mrs'' e''].
  destruct (shr_m mrs''); [reflexivity| |exact I].
  destruct (e'' <=? emax - prec); reflexivity.
Qed.

Lemma binary_round_aux_not_negative (mx ex : Z) (lx : location) :
  not_negative (binary_round_aux prec emax false mx ex lx).
Proof.
  pose proof (binary_round_aux_sign false mx ex lx) as H.
  destruct (binary_round_aux prec emax false mx ex lx); simpl; auto.
Qed.

Lemma binary_normalize_not_negative (m e : Z) :
  0 <= m -> not_negative (binary_normalize prec emax m e false).
Proof.
  intros Hm. destruct m as [|p|p]; [exact I| |lia].
  unfold binary_normalize, binary_round.
  destruct (shl_align p e _) as [mz ez].
  apply binary_round_aux_not_negative.
Qed.

Lemma add_not_negative (x y : float32) :
  not_negative x -> not_negative y -> not_negative (x + y)%f32.
Proof.
  destruct x as [sx|sx| |sx mx ex], y as [sy|sy| |sy my ey]; simpl;
    intros Hx Hy; subst; try exact I; try reflexivity;
    try (destruct sx, sy; simpl; auto; fail).
  unfold add, SFadd. apply binary_normalize_not_negative. simpl. lia.
Qed.

Lemma div_not_negative (x y : float32) :
  not_negative x -> strictly_positive y \/ is_nan y = true ->
  not_negative (x / y)%f32.
Proof.
  intros Hx [Hy|Hy].
  - destruct x as [sx|sx| |sx mx ex], y as [[]|[]| |[] my ey]; simpl in *;
      try contradiction; subst; try exact I; try reflexivity;
      try (destruct sx; reflexivity).
    unfold div, SFdiv.
    destruct (SFdiv_core_binary prec emax (Z.pos mx) ex (Z.pos my) ey) as [[mz ez] lz].
    apply binary_round_aux_not_negative.
  - destruct y; try discriminate. destruct x; exact I.
Qed.

Lemma leb_zero_not_negative (x : float32) :
  leb zero x = true -> not_negative x.
Proof. destruct x as [s|[]| |[] m e]; simpl; try discriminate; auto. Qed.

Lemma not_negative_leb_zero (x : float32) :
  not_negative x -> is_nan x = false -> leb zero x = true.
Proof.
  destruct x as [s|[]| |[] m e]; simpl; try discriminate; auto.
Qed.

Lemma gt_zero_strictly_positive (eps y : float32) :
  leb zero eps = true -> leb y eps = false ->
  strictly_positive y \/ is_nan y = true.
Proof.
  intros He Hy.
  destruct (is_nan y) eqn:Hn; [right; reflexivity|left].
  assert (Hlt : ltb eps y = true).
  { destruct (ltb eps y) eqn:E; [reflexivity|].
    rewrite (ltb_false_leb y eps) in Hy; [discriminate|assumption| |assumption].
    exact (proj2 (leb_not_nan _ _ He)). }
  clear Hy Hn. key_intro.
  destruct y as [s|[]| |[] m e]; simpl in *; try exact I;
    repeat match goal with H : Some _ = Some _ |- _ => injection H as <- end;
    repeat match goal with H : None = Some _ |- _ => discriminate H end;
    exfalso; revert He Hlt;
    match goal with H : order_key eps = Some ?k |- _ => clear; destruct k as [[? ?] ?] end;
    unfold key_lt; simpl; lia.
Qed.

Lemma digits2_pos_size (p : positive) : digits2_pos p = Pos.size p.
Proof. induction p; simpl; congruence. Qed.

Lemma mantissa_below_digits (m : positive) :
  Zpos m < 2 ^ Zpos (digits2_pos m).
Proof.
  rewrite digits2_pos_size.
  pose proof (Pos.size_gt m) as H.
  apply Pos2Z.pos_lt_pos in H. rewrite Pos2Z.inj_pow in H. exact H.
Qed.

Lemma mantissa_above_digits (m : positive) :
  2 ^ Zpos (digits2_pos m) <= 2 * Zpos m.
Proof.
  rewrite digits2_pos_size.
  pose proof (Pos.size_le m) as H.
  apply Pos2Z.pos_le_pos in H. rewrite Pos2Z.inj_pow in H. exact H.
Qed.

Lemma bounded_digits (m : positive) (e : Z) :
  bounded prec emax m e = true ->
  Zpos (digits2_pos m) <= 24 /\ (-149 < e -> Zpos (digits2_pos m) = 24).
Proof.
  unfold bounded, canonical_mantissa, fexp, emin, prec, emax.
  intros H. apply andb_true_iff in H as [H _]. apply Z.eqb_eq in H. lia.
Qed.

Lemma shl_align_value (m : positive) (e e' : Z) :
  e' <= e -> Zpos (fst (shl_align m e e')) = Zpos m * 2 ^ (e - e').
Proof.
  intros H. unfold shl_align.
  destruct (e' - e) as [|d|d] eqn:E; simpl fst.
  - replace (e - e') with 0 by lia. lia.
  - lia.
  - replace (e - e') with (Zpos d) by lia.
    change (Pos.iter xO m d) with (shift_pos d m).
    rewrite shift_pos_correct. rewrite Z.mul_comm. reflexivity.
Qed.

(** Of two valid positive values, the one with the larger exponent, or with
    the same exponent and the larger mantissa, is the larger. *)
Lemma aligned_mantissas (mx my : positive) (ex ey : Z) :
  bounded prec emax mx ex = true -> bounded prec emax my ey = true ->
  ey < ex \/ (ey = ex /\ Zpos my < Zpos mx) ->
  Zpos (fst (shl_align my ey (Z.min ex ey))) <=
  Zpos (fst (shl_align mx ex (Z.min ex ey))).
Proof.
  intros Hx Hy Hlt.
  rewrite !shl_align_value by lia.
  destruct Hlt as [Hlt|[-> Hlt]].
  - replace (Z.min ex ey) with ey by lia.
    replace (ey - ey) with 0 by lia. rewrite Z.pow_0_r, Z.mul_1_r.
    destruct (bounded_digits _ _ Hy) as [Hdy _].
    destruct (bounded_digits _ _ Hx) as [_ Hdx].
    assert (Hey : -149 <= ey).
    { revert Hy. unfold bounded, canonical_mantissa, fexp, emin, prec, emax.
      intros H. apply andb_true_iff in H as [H _]. apply Z.eqb_eq in H. lia. }
    specialize (Hdx ltac:(lia)).
    pose proof (mantissa_below_digits my) as Hmy.
    pose proof (mantissa_above_digits mx) as Hmx. rewrite Hdx in Hmx.
    assert (Zpos my < 2 ^ 24).
    { eapply Z.lt_le_trans; [exact Hmy|]. apply Z.pow_le_mono_r; lia. }
    assert (2 ^ 1 <= 2 ^ (ex - ey)) by (apply Z.pow_le_mono_r; lia).
    change (2 ^ 1) with 2 in *. change (2 ^ 24) with 16777216 in *. nia.
  - replace (Z.min ex ex) with ex by lia.
    replace (ex - ex) with 0 by lia. rewrite Z.pow_0_r. lia.
Qed.

Lemma sub_not_negative (a b : float32) :
  valid_binary prec emax a = true -> valid_binary prec emax b = true ->
  leb a b = false -> not_negative (a - b)%f32.
Proof.
  intros Va Vb Hle.
  destruct (is_nan a) eqn:Na; [destruct a; try discriminate; exact I|].
  destruct (is_nan b) eqn:Nb; [destruct b; try discriminate; destruct a; exact I|].
  assert (Hlt : ltb b a = true).
  { destruct (ltb b a) eqn:E; [reflexivity|].
    rewrite (ltb_false_leb a b Na Nb E) in Hle. discriminate. }
  clear Hle Na Nb. unfold ltb, SFltb in Hlt.
  destruct a as [sa|sa| |sa ma ea], b as [sb|sb| |sb mb eb];
    try destruct sa; try destruct sb;
    try (simpl in Hlt; discriminate Hlt); try exact I; try reflexivity;
    cbn [valid_binary] in Va, Vb;
    cbn [SFcompare] in Hlt;
    change (Pos.compare_cont Eq ?p ?q) with (Pos.compare p q) in Hlt;
    unfold sub, SFsub; apply binary_normalize_not_negative; unfold cond_Zopp.
  - (* both negative *)
    assert (ea < eb \/ (ea = eb /\ Zpos ma < Zpos mb)).
    { destruct (Z.compare_spec eb ea); try discriminate; [right|left; lia].
      split; [congruence|]. subst.
      destruct (Pos.compare_spec mb ma); try discriminate. lia. }
    pose proof (aligned_mantissas mb ma eb ea Vb Va ltac:(lia)) as H1.
    replace (Z.min eb ea) with (Z.min ea eb) in H1 by lia. lia.
  - (* a positive, b negative *)
    lia.
  - (* both positive *)
    assert (eb < ea \/ (eb = ea /\ Zpos mb < Zpos ma)).
    { destruct (Z.compare_spec eb ea); try discriminate; [right|left; lia].
      split; [congruence|]. subst.
      destruct (Pos.compare_spec mb ma); try discriminate. lia. }
    pose proof (aligned_mantissas ma mb ea eb Va Vb ltac:(lia)) as H1. lia.
Qed.

(** ** The time-of-impact driver *)

Section TimeOfImpactClaims.

Variables cb2DistanceProxy cb2Sweep : Type.
Variable distanceAt : cb2TOIInput cb2DistanceProxy cb2Sweep -> float32 -> float32.
Variable toleranceBand : cb2TOIInput cb2DistanceProxy cb2Sweep -> float32.
Variable approachBound : cb2TOIInput cb2DistanceProxy cb2Sweep -> float32 -> float32.
Variable b2_epsilon : float32.
Variable k_maxIterations : nat.
Variable input : cb2TOIInput cb2DistanceProxy cb2Sweep.

(** The interval is not empty, the near-zero threshold is not negative,
    and the distance primitive and the tolerance are binary32 values. *)
Hypothesis tMax_not_negative : leb zero (tMax _ _ input) = true.
Hypothesis epsilon_not_negative : leb zero b2_epsilon = true.
Hypothesis distance_valid :
  forall t, valid_binary prec emax (distanceAt input t) = true.
Hypothesis band_valid : valid_binary prec emax (toleranceBand input) = true.

Lemma reported_not_unknown (s : cb2TOIState) : reported s <-> s <> e_unknown.
Proof.
  unfold reported. destruct s; split; intros H; try discriminate; auto;
    try (exfalso; apply H; reflexivity);
    destruct H as [H|[H|[H|H]]]; discriminate H.
Qed.

Lemma b2Min_range (s : float32) :
  not_negative s -> timeInRange (tMax _ _ input) (b2Min s (tMax _ _ input)).
Proof.
  intros Hs. unfold b2Min, timeInRange.
  destruct (s <? tMax _ _ input)%f32 eqn:E.
  - assert (Hn : is_nan s = false).
    { pose proof E as E'. apply ltb_key in E' as (k & _ & Hk & _).
      apply is_nan_key. eauto. }
    split; [apply not_negative_leb_zero; assumption|].
    apply ltb_false_leb; [assumption| |apply ltb_asym; assumption].
    exact (proj2 (leb_not_nan _ _ tMax_not_negative)).
  - split; [assumption|]. apply leb_refl.
    exact (proj2 (leb_not_nan _ _ tMax_not_negative)).
Qed.

Lemma toiIteration_range (t : float32) (iter : nat) :
  timeInRange (tMax _ _ input) t ->
  timeInRange (tMax _ _ input)
    (toi_t (toiIteration _ _ distanceAt toleranceBand approachBound
              b2_epsilon k_maxIterations input t iter).1).
Proof.
  intros Ht. unfold toiIteration.
  destruct (k_maxIterations <=? iter)%nat; [exact Ht|].
  destruct (distanceAt input t <=? toleranceBand input)%f32 eqn:Hd.
  { destruct (eqb t zero); exact Ht. }
  destruct (approachBound input t <=? b2_epsilon)%f32 eqn:Hb; [exact Ht|].
  assert (Hr : timeInRange (tMax _ _ input)
                 (b2Min (t + (distanceAt input t - toleranceBand input)
                              / approachBound input t)%f32 (tMax _ _ input))).
  { apply b2Min_range. apply add_not_negative.
    - apply leb_zero_not_negative. exact (proj1 Ht).
    - apply div_not_negative.
      + apply sub_not_negative; auto.
      + eapply gt_zero_strictly_positive; eassumption. }
  destruct (tMax _ _ input <=? _)%f32; exact Hr.
Qed.

Lemma toiIteration_unknown (t : float32) (iter : nat) :
  let r := toiIteration _ _ distanceAt toleranceBand approachBound
             b2_epsilon k_maxIterations input t iter in
  toi_state r.1 = e_unknown -> r.2 = S iter /\ (iter < k_maxIterations)%nat.
Proof.
  cbv zeta. unfold toiIteration.
  destruct (Nat.leb_spec k_maxIterations iter);
    [cbn [fst toi_state]; discriminate|].
  destruct (distanceAt input t <=? toleranceBand input)%f32;
    [destruct (eqb t zero); cbn [fst toi_state]; discriminate|].
  destruct (approachBound input t <=? b2_epsilon)%f32;
    [cbn [fst toi_state]; discriminate|].
  destruct (tMax _ _ input <=? _)%f32; [cbn [fst toi_state]; discriminate|].
  cbn [fst snd]. intros _. split; [reflexivity|assumption].
Qed.

Lemma toiRun_reports (fuel : nat) :
  forall (out : cb2TOIOutput) (n : nat),
    timeInRange (tMax _ _ input) (toi_t out) ->
    (toi_state out = e_unknown ->
     (n <= k_maxIterations)%nat /\ (k_maxIterations < fuel + n)%nat) ->
    let r := toiRun _ _ distanceAt toleranceBand approachBound
               b2_epsilon k_maxIterations input fuel (out, n) in
    (toi_state out = e_unknown -> toi_state r.1 <> e_unknown) /\
    (toi_state out <> e_unknown -> r.1 = out) /\
    timeInRange (tMax _ _ input) (toi_t r.1).
Proof.
  induction fuel as [|fuel IH]; intros out n Ht Hn.
  - simpl. split; [intros Hu; specialize (Hn Hu); lia|]. split; auto.
  - cbn [toiRun]. unfold toiStep. cbn [fst snd].
    destruct (toi_state out) eqn:Hs;
      try (cbn [fst]; split; [discriminate|]; split; [reflexivity|assumption]).
    set (cfg := toiIteration _ _ distanceAt toleranceBand approachBound
                  b2_epsilon k_maxIterations input (toi_t out) n).
    pose proof (toiIteration_range (toi_t out) n Ht) as Hrange. fold cfg in Hrange.
    pose proof (toiIteration_unknown (toi_t out) n) as Hunk.
    cbv zeta in Hunk. fold cfg in Hunk.
    destruct cfg as [out' n']. cbn [fst snd] in *.
    assert (Hn' : toi_state out' = e_unknown ->
                  (n' <= k_maxIterations)%nat /\ (k_maxIterations < fuel + n')%nat).
    { intros Hu. destruct (Hunk Hu) as [-> ?].
      destruct (Hn eq_refl) as [_ ?]. lia. }
    destruct (IH out' n' Hrange Hn') as (Hu & Hk & Hr).
    split; [|split; [intros H; contradiction H; reflexivity|exact Hr]].
    intros _. destruct (toi_state out') eqn:Hs'; [apply Hu; reflexivity| | | |];
      rewrite (Hk ltac:(discriminate)); rewrite Hs'; discriminate.
Qed.

(** C9: [cb2TimeOfImpact] returns one of the four reported states, never
    [e_unknown]; the reported time lies in [[0, tMax]]; and the returned
    output is terminal: the driver has no transition out of it. *)
Theorem cb2TimeOfImpact_reports_terminal_state :
  let out := cb2TimeOfImpact _ _ distanceAt toleranceBand approachBound
               b2_epsilon k_maxIterations input in
  reported (toi_state out) /\
  toi_state out <> e_unknown /\
  leb zero (toi_t out) = true /\
  leb (toi_t out) (tMax _ _ input) = true /\
  forall n, toiStep _ _ distanceAt toleranceBand approachBound
              b2_epsilon k_maxIterations input (out, n) = None.
Proof.
  cbv zeta. unfold cb2TimeOfImpact.
  destruct (toiRun_reports (S k_maxIterations) (mkTOIOutput e_unknown zero) 0)
    as (Hu & _ & Hr).
  - split; [reflexivity|exact tMax_not_negative].
  - intros _. lia.
  - specialize (Hu eq_refl).
    set (out := (toiRun _ _ distanceAt toleranceBand approachBound b2_epsilon
                   k_maxIterations input (S k_maxIterations)
                   (mkTOIOutput e_unknown zero, 0%nat)).1) in *.
    split; [apply reported_not_unknown; exact Hu|]. split; [exact Hu|].
    split; [exact (proj1 Hr)|]. split; [exact (proj2 Hr)|].
    intros n. unfold toiStep. cbn [fst].
    destruct (toi_state out); [contradiction Hu; reflexivity| | | |]; reflexivity.
Qed.

End TimeOfImpactClaims.

Lemma cb2TimeOfImpact_reports_terminal_state_witness :
  toi_state constantGapQuery = e_separated /\
  toi_state constantGapQuery <> e_unknown /\
  leb zero (toi_t constantGapQuery) = true /\
  leb (toi_t constantGapQuery) one = true.
Proof.
  destruct (cb2TimeOfImpact_reports_terminal_state unit unit
              (fun _ _ => of_Z 2) (fun _ => of_ratio 1 100) (fun _ _ => one)
              (of_ratio 1 1000000) 20 constantGapInput)
    as (_ & Hu & H0 & H1 & _).
  - vm_compute. reflexivity.
  - vm_compute. reflexivity.
  - intros t. vm_compute. reflexivity.
  - vm_compute. reflexivity.
  - split; [vm_compute; reflexivity|]. split; [exact Hu|].
    split; [exact H0|exact H1].
Defined.

(** ** The segment clipper *)

(** C5: the clipper returns both points, unchanged and in order, when both
    signed distances are at most zero; the one remaining point followed by
    the interpolated crossing point, tagged with the new vertex index, when
    exactly one distance is above zero; nothing when both are above zero;
    and never more than two points. *)
Theorem b2ClipSegmentToLine_cases
    (vIn0 vIn1 : b2ClipVertex) (normal : b2Vec2) (offset : float32)
    (vertexIndexA : Z) :
  let distance0 := clipDistance normal offset vIn0 in
  let distance1 := clipDistance normal offset vIn1 in
  let vOut := b2ClipSegmentToLine [vIn0; vIn1] normal offset vertexIndexA in
  let crossing :=
    mkClipVertex
      (vadd (cv_v vIn0)
            (vscale (distance0 / (distance0 - distance1))%f32
                    (vsub (cv_v vIn1) (cv_v vIn0))))
      (clippedFeature vertexIndexA vIn0) in
  ((distance0 <=? zero)%f32 = true -> (distance1 <=? zero)%f32 = true ->
   vOut = [vIn0; vIn1]) /\
  ((distance0 >? zero)%f32 = true -> (distance1 >? zero)%f32 = false ->
   vOut = [vIn1; crossing]) /\
  ((distance0 >? zero)%f32 = false -> (distance1 >? zero)%f32 = true ->
   vOut = [vIn0; crossing]) /\
  ((distance0 >? zero)%f32 = true -> (distance1 >? zero)%f32 = true ->
   vOut = []) /\
  indexA (cv_id crossing) = to_uint8 vertexIndexA /\
  (length vOut <= 2)%nat.
Proof.
  cbv zeta. unfold b2ClipSegmentToLine.
  change (clip_at [vIn0; vIn1] 0) with vIn0.
  change (clip_at [vIn0; vIn1] 1) with vIn1.
  set (d0 := clipDistance normal offset vIn0).
  set (d1 := clipDistance normal offset vIn1).
  unfold clipIntersection. fold d0 d1.
  split; [|split; [|split; [|split; [|split]]]].
  - intros -> ->. reflexivity.
  - intros H0 H1. rewrite (ltb_leb_false _ _ H0), H0, H1. reflexivity.
  - intros H0 H1. rewrite (ltb_leb_false _ _ H1), H0, H1, andb_false_r.
    reflexivity.
  - intros H0 H1. rewrite (ltb_leb_false _ _ H0), H0, H1. reflexivity.
  - reflexivity.
  - destruct (d0 <=? zero)%f32, (d1 <=? zero)%f32, (d0 >? zero)%f32,
      (d1 >? zero)%f32; simpl; lia.
Qed.

Lemma b2ClipSegmentToLine_cases_witness :
  b2ClipSegmentToLine
    [mkClipVertex (vec 2 1) (mkFeature 1 3 e_face e_vertex);
     mkClipVertex (vec 2 (-1)) (mkFeature 1 0 e_face e_vertex)]
    (vec 0 1) one 2 =
  [mkClipVertex (vec 2 1) (mkFeature 1 3 e_face e_vertex);
   mkClipVertex (vec 2 (-1)) (mkFeature 1 0 e_face e_vertex)].
Proof.
  destruct (b2ClipSegmentToLine_cases
              (mkClipVertex (vec 2 1) (mkFeature 1 3 e_face e_vertex))
              (mkClipVertex (vec 2 (-1)) (mkFeature 1 0 e_face e_vertex))
              (vec 0 1) one 2) as (Hin & _).
  apply Hin; vm_compute; reflexivity.
Defined.

(** ** Runs of the builder *)

(** Two boxes of half-width 1 whose centres are 1.5 apart: the builder
    reports two points on a face of A, with the normal along +x. *)
Example collide_overlapping_boxes :
  exists M,
    collide emptyManifold (boxShape 1 1) (translation zero zero)
            (boxShape 1 1) (translation (of_ratio 3 2) zero) = Some M /\
    pointCount M = 2 /\ mtype M = e_faceA /\ vx (localNormal M) = one /\
    mp_id <$> points M =
      [mkFeature 1 3 e_face e_vertex; mkFeature 1 0 e_face e_vertex].
Proof. eexists. split; [vm_compute; reflexivity|]. vm_compute. repeat split. Qed.

(** The same run in full. *)
Example collide_overlapping_boxes_manifold :
  collide emptyManifold (boxShape 1 1) (translation zero zero)
          (boxShape 1 1) (translation (of_ratio 3 2) zero) =
  Some overlappingContact.
Proof. vm_compute. reflexivity. Qed.

(** Two skinned boxes with a gap of 0.375 between their faces: the gap is
    above either radius and below their sum 0.5, so the pair is in contact,
    with two points. *)
Example collide_skinned_boxes :
  (separationA skinnedBox (translation zero zero)
               skinnedBox (translation (of_ratio 19 8) zero)
   >? m_radius skinnedBox)%f32 = true /\
  totalRadius skinnedBox skinnedBox = half /\
  pointCount <$> collide emptyManifold skinnedBox (translation zero zero)
                         skinnedBox (translation (of_ratio 19 8) zero) = Some 2.
Proof. vm_compute. repeat split. Qed.

(** Box B one unit lower: its left edge runs from y = 0 down to y = -2 and
    the first clip, against the lower end of the reference edge, cuts it at
    y = -1; the point made by the cut carries the reference vertex 1. *)
Example clip_box_below :
  clipPoints2 b2_linearSlop_default b2ClipSegmentToLine
    (boxShape 1 1) (translation zero zero)
    (boxShape 1 1) (translation (of_ratio 3 2) (of_Z (-1))) =
  [ mkClipVertex (mkVec2 half zero) (mkFeature 1 3 e_face e_vertex);
    mkClipVertex (mkVec2 half (of_Z (-1))) (mkFeature 1 3 e_vertex e_face) ].
Proof. vm_compute. reflexivity. Qed.

(** Skinned box B one unit higher: its left edge runs from y = 2 down to
    y = 0 and the second clip, against the upper end of the reference edge
    pushed out by the total radius 0.5, cuts it at y = 1.5. *)
Example clip_skinned_box_above :
  clipPoints2 b2_linearSlop_default b2ClipSegmentToLine
    skinnedBox (translation zero zero)
    skinnedBox (translation (of_ratio 3 2) one) =
  [ mkClipVertex (mkVec2 half zero) (mkFeature 1 0 e_face e_vertex);
    mkClipVertex (mkVec2 half (of_ratio 3 2)) (mkFeature 2 3 e_vertex e_face) ].
Proof. vm_compute. reflexivity. Qed.

(** The same pair through a clipper that returns no point: the routine
    leaves at the first clip, after the manifold type is written and with
    no point reported. *)
Example collide_empty_clip :
  b2CollidePolygons b2_linearSlop_default (fun _ _ _ _ => [])
    emptyManifold (boxShape 1 1) (translation zero zero)
    (boxShape 1 1) (translation (of_ratio 3 2) zero)
  = Some (set_type emptyManifold e_faceA).
Proof. vm_compute. reflexivity. Qed.

(** Two polygons without vertices: no face separates them, the reference
    edge 0 is not an edge of the empty reference polygon, and the assertion
    of [b2FindIncidentEdge] stops the routine. *)
Example collide_empty_polygons :
  collide emptyManifold (mkPolygon [] [] 0 zero) (translation zero zero)
          (mkPolygon [] [] 0 zero) (translation zero zero) = None.
Proof. vm_compute. reflexivity. Qed.

(** The incident edge of a box three units to the right, asked for
    reference edge 4 of a box, which has edges 0 to 3. *)
Example b2FindIncidentEdge_edge_out_of_range :
  b2FindIncidentEdge (boxShape 1 1) (translation zero zero) 4
                     (boxShape 1 1) (translation (of_Z 3) zero) = None.
Proof. vm_compute. reflexivity. Qed.

(** The diamond just before the threshold: B is the reference, and the
    stored tags are those of the clipper with the two shapes exchanged. *)
Example collide_diamond_faceB :
  exists M,
    collide emptyManifold (boxShape 1 1) (translation zero zero)
            (diamondShape 3) nearThreshold = Some M /\
    pointCount M = 2 /\ mtype M = e_faceB /\
    mp_id <$> points M =
      [mkFeature 1 1 e_vertex e_face; mkFeature 0 2 e_face e_vertex].
Proof. eexists. split; [vm_compute; reflexivity|]. vm_compute. repeat split. Qed.

(** The far-apart boxes: the relative offset overflows, every projection
    on the first face is NaN, and the finder returns the sentinel. *)
Example b2FindMaxSeparation_far_apart :
  b2FindMaxSeparation (boxShape 1 1) (translation (neg farOut) zero)
                      (boxShape 1 1) (translation farOut zero)
  = (0, b2_maxFloat) /\
  xp (b2MulT_xx (translation farOut zero) (translation (neg farOut) zero))
  = mkVec2 (S754_infinity true) S754_nan /\
  (fun j => edgeVertexSeparation
              (boxShape 1 1) (translation (neg farOut) zero)
              (boxShape 1 1) (translation farOut zero) 0 j) <$> [0; 1; 2; 3]
  = [S754_nan; S754_nan; S754_nan; S754_nan].
Proof. vm_compute. repeat split. Qed.

(** The diamond at the two placements: separationA moves by one unit in
    the last place, separationB does not move, and the tolerance is about
    2000 times larger. *)
Example separations_near_threshold :
  separationA (boxShape 1 1) (translation zero zero) (diamondShape 3) nearThreshold
  = S754_finite true 10133107 (-22) /\
  separationA (boxShape 1 1) (translation zero zero) (diamondShape 3) pastThreshold
  = S754_finite true 10133106 (-22) /\
  separationB (boxShape 1 1) (translation zero zero) (diamondShape 3) nearThreshold
  = S754_finite true 10131009 (-22) /\
  separationB (boxShape 1 1) (translation zero zero) (diamondShape 3) pastThreshold
  = S754_finite true 10131009 (-22) /\
  k_tol b2_linearSlop_default = S754_finite false 8589935 (-34) /\
  mtype <$> collide emptyManifold (boxShape 1 1) (translation zero zero)
                    (diamondShape 3) nearThreshold = Some e_faceB /\
  mtype <$> collide emptyManifold (boxShape 1 1) (translation zero zero)
                    (diamondShape 3) pastThreshold = Some e_faceA.
Proof. vm_compute. repeat split. Qed.


(** * Further properties of the code *)

(** ** More on the order of binary32 comparisons *)

Lemma ltb_leb (x y : float32) : ltb x y = true -> leb x y = true.
Proof.
  intros H. pose proof H as H'. key_intro. apply leb_key.
  eexists _, _. split; [eassumption|]. split; [eassumption|]. key_arith.
Qed.

Lemma ltb_not_nan (x y : float32) :
  ltb x y = true -> is_nan x = false /\ is_nan y = false.
Proof. intros H. exact (leb_not_nan _ _ (ltb_leb _ _ H)). Qed.

(** [a < b] and [b <= c], the latter read as "[c] is a number that is not
    below [b]". *)
Lemma ltb_le_trans (a b c : float32) :
  is_nan c = false -> ltb a b = true -> ltb c b = false -> ltb a c = true.
Proof.
  intros Hc Hab Hcb.
  destruct (ltb_not_nan _ _ Hab) as [_ Hb].
  pose proof (ltb_false_leb b c Hb Hc Hcb) as Hle.
  key_intro. apply ltb_key.
  eexists _, _. split; [eassumption|]. split; [eassumption|]. key_arith.
Qed.

Lemma gtb_le_trans (a b c : float32) :
  is_nan c = false -> ltb b a = true -> ltb b c = false -> ltb c a = true.
Proof.
  intros Hc Hab Hcb.
  destruct (ltb_not_nan _ _ Hab) as [Hb _].
  pose proof (ltb_false_leb c b Hc Hb Hcb) as Hle.
  key_intro. apply ltb_key.
  eexists _, _. split; [eassumption|]. split; [eassumption|]. key_arith.
Qed.

(** ** The first best candidate *)

Section FirstBest.

Context {A : Type}.
Variable beats : A -> A -> bool.
Variable ordered : A -> Prop.
Hypothesis beats_trans :
  forall a b c, beats a b = true -> beats b c = true -> beats a c = true.
Hypothesis beats_past :
  forall a b c, ordered c -> beats a b = true -> beats c b = false ->
                beats a c = true.
Variable f : Z -> A.

(** Either the loop never replaced its initial state, or the index it
    returns splits the walk in two, and the value kept beats every
    candidate met before it. *)
Lemma bestIndexed_first (l : list Z) (i0 : Z) (init : A) :
  (forall i, i ∈ l -> ordered (f i)) ->
  let r := bestIndexed beats f (i0, init) l in
  r = (i0, init) \/
  exists l1 l2, l = l1 ++ r.1 :: l2 /\ r.2 = f r.1 /\ beats r.2 init = true /\
                forall i, i ∈ l1 -> beats r.2 (f i) = true.
Proof.
  revert i0 init. induction l as [|a l IH]; intros i0 init Hord; cbv zeta.
  - left. reflexivity.
  - assert (Hord' : forall i, i ∈ l -> ordered (f i))
      by (intros i Hi; apply Hord; right; exact Hi).
    unfold bestIndexed. cbn [foldl].
    destruct (beats (f a) init) eqn:Hb.
    + fold (bestIndexed beats f (a, f a) l).
      destruct (IH a (f a) Hord') as [Hr|(l1 & l2 & Hl & Heq & Hlt & Hall)].
      * right. exists [], l. rewrite Hr. cbn [fst snd app].
        split; [reflexivity|]. split; [reflexivity|]. split; [exact Hb|].
        intros i Hi. inversion Hi.
      * right. exists (a :: l1), l2. split; [rewrite Hl at 1; reflexivity|].
        split; [exact Heq|]. split; [eapply beats_trans; eassumption|].
        intros i Hi. apply elem_of_cons in Hi as [->|Hi]; [exact Hlt|auto].
    + fold (bestIndexed beats f (i0, init) l).
      destruct (IH i0 init Hord') as [Hr|(l1 & l2 & Hl & Heq & Hlt & Hall)].
      * left. exact Hr.
      * right. exists (a :: l1), l2. split; [rewrite Hl at 1; reflexivity|].
        split; [exact Heq|]. split; [exact Hlt|].
        intros i Hi. apply elem_of_cons in Hi as [->|Hi]; [|auto].
        eapply beats_past; [apply Hord; left|exact Hlt|exact Hb].
Qed.

End FirstBest.

(** In the walk [0, 1, ..., n-1] everything below an index comes before
    it. *)
Lemma seqZ_before (n e : Z) (l1 l2 : list Z) :
  seqZ 0 n = l1 ++ e :: l2 -> forall i, 0 <= i < e -> i ∈ l1.
Proof.
  intros Hl.
  assert (Hlen : length (seqZ 0 n) = (length l1 + S (length l2))%nat)
    by (rewrite Hl, length_app; reflexivity).
  rewrite length_seqZ in Hlen.
  assert (He : e = Z.of_nat (length l1)).
  { assert (H : seqZ 0 n !! length l1 = Some e)
      by (rewrite Hl; apply list_lookup_middle; reflexivity).
    rewrite lookup_seqZ_lt in H by lia. injection H as <-. lia. }
  intros i Hi.
  apply (list_elem_of_lookup_2 _ (Z.to_nat i)).
  rewrite <- (lookup_app_l l1 (e :: l2)) by lia.
  rewrite <- Hl. rewrite lookup_seqZ_lt by lia. f_equal. lia.
Qed.


(** ** The separation finder on every input *)

Lemma deepestPoint_le_max (poly1 : b2PolygonShape) (xf1 : b2Transform)
    (poly2 : b2PolygonShape) (xf2 : b2Transform) (i : Z) :
  leb (deepestPoint poly1 xf1 poly2 xf2 i) b2_maxFloat = true.
Proof.
  rewrite deepestPoint_bestValue, (bestValue_indexed ltb _ _ 0).
  destruct (bestIndexed_spec ltb ltb_irrefl ltb_trans
              (edgeVertexSeparation poly1 xf1 poly2 xf2 i)
              (seqZ 0 (m_count poly2)) 0 b2_maxFloat) as [_ [[_ ->]|(_ & _ & H)]].
  - reflexivity.
  - apply ltb_leb. exact H.
Qed.

Lemma deepestPoint_not_nan (poly1 : b2PolygonShape) (xf1 : b2Transform)
    (poly2 : b2PolygonShape) (xf2 : b2Transform) (i : Z) :
  is_nan (deepestPoint poly1 xf1 poly2 xf2 i) = false.
Proof. exact (proj1 (leb_not_nan _ _ (deepestPoint_le_max _ _ _ _ i))). Qed.

Lemma b2FindMaxSeparation_result_cases
    (poly1 : b2PolygonShape) (xf1 : b2Transform)
    (poly2 : b2PolygonShape) (xf2 : b2Transform) :
  let res := b2FindMaxSeparation poly1 xf1 poly2 xf2 in
  res = (0, neg b2_maxFloat) \/
  (res.2 = deepestPoint poly1 xf1 poly2 xf2 res.1 /\
   ltb (neg b2_maxFloat) res.2 = true).
Proof.
  cbv zeta. rewrite b2FindMaxSeparation_bestIndexed.
  destruct (bestIndexed_spec (fun x y => ltb y x) gtb_irrefl gtb_trans
              (deepestPoint poly1 xf1 poly2 xf2)
              (seqZ 0 (m_count poly1)) 0 (neg b2_maxFloat))
    as [_ [[H1 H2]|(_ & H & Hlt)]].
  - left. apply injective_projections; assumption.
  - right. split; assumption.
Qed.

Lemma b2FindMaxSeparation_not_nan
    (poly1 : b2PolygonShape) (xf1 : b2Transform)
    (poly2 : b2PolygonShape) (xf2 : b2Transform) :
  is_nan (b2FindMaxSeparation poly1 xf1 poly2 xf2).2 = false.
Proof.
  destruct (b2FindMaxSeparation_result_cases poly1 xf1 poly2 xf2)
    as [->|[_ H]]; [reflexivity|].
  exact (proj2 (ltb_not_nan _ _ H)).
Qed.

(** X1: whatever the polygons and placements, the separation returned by
    [b2FindMaxSeparation] is a number between [-b2_maxFloat] and
    [b2_maxFloat]: never NaN and never infinite, also when projections
    overflow. *)
Theorem b2FindMaxSeparation_in_float_range
    (poly1 : b2PolygonShape) (xf1 : b2Transform)
    (poly2 : b2PolygonShape) (xf2 : b2Transform) :
  in_float_range (b2FindMaxSeparation poly1 xf1 poly2 xf2).2 = true.
Proof.
  destruct (b2FindMaxSeparation_result_cases poly1 xf1 poly2 xf2)
    as [->|[Heq Hlt]]; [reflexivity|].
  unfold in_float_range. apply andb_true_iff. split.
  - apply ltb_leb. exact Hlt.
  - rewrite Heq. apply deepestPoint_le_max.
Qed.

(** X2: on every input, no vertex of the other polygon projects below the
    value the inner loop keeps for a face (a projection is NaN or at least
    that value), no face's value exceeds the separation returned, and the
    separation returned is the value of the returned face unless no face
    rose above the initial [-b2_maxFloat]. *)
Theorem b2FindMaxSeparation_never_beaten
    (poly1 : b2PolygonShape) (xf1 : b2Transform)
    (poly2 : b2PolygonShape) (xf2 : b2Transform) :
  let res := b2FindMaxSeparation poly1 xf1 poly2 xf2 in
  (forall i j, 0 <= j < m_count poly2 ->
     is_nan (edgeVertexSeparation poly1 xf1 poly2 xf2 i j) = true \/
     leb (deepestPoint poly1 xf1 poly2 xf2 i)
         (edgeVertexSeparation poly1 xf1 poly2 xf2 i j) = true) /\
  (forall i, 0 <= i < m_count poly1 ->
     leb (deepestPoint poly1 xf1 poly2 xf2 i) res.2 = true) /\
  (res.2 = deepestPoint poly1 xf1 poly2 xf2 res.1 \/
   res = (0, neg b2_maxFloat)).
Proof.
  cbv zeta. split; [|split].
  - intros i j Hj.
    destruct (is_nan (edgeVertexSeparation poly1 xf1 poly2 xf2 i j)) eqn:Hn;
      [left; reflexivity|right].
    apply ltb_false_leb; [apply deepestPoint_not_nan|exact Hn|].
    rewrite deepestPoint_bestValue, (bestValue_indexed ltb _ _ 0).
    destruct (bestIndexed_spec ltb ltb_irrefl ltb_trans
                (edgeVertexSeparation poly1 xf1 poly2 xf2 i)
                (seqZ 0 (m_count poly2)) 0 b2_maxFloat) as [Hall _].
    apply Hall. apply elem_of_seqZ_0. exact Hj.
  - intros i Hi. apply ltb_false_leb;
      [apply deepestPoint_not_nan|apply b2FindMaxSeparation_not_nan|].
    rewrite b2FindMaxSeparation_bestIndexed.
    destruct (bestIndexed_spec (fun x y => ltb y x) gtb_irrefl gtb_trans
                (deepestPoint poly1 xf1 poly2 xf2)
                (seqZ 0 (m_count poly1)) 0 (neg b2_maxFloat)) as [Hall _].
    apply (Hall i). apply elem_of_seqZ_0. exact Hi.
  - rewrite b2FindMaxSeparation_bestIndexed.
    destruct (bestIndexed_spec (fun x y => ltb y x) gtb_irrefl gtb_trans
                (deepestPoint poly1 xf1 poly2 xf2)
                (seqZ 0 (m_count poly1)) 0 (neg b2_maxFloat))
      as [_ [[H1 H2]|(_ & H & _)]].
    + right. apply injective_projections; assumption.
    + left. exact H.
Qed.

(** X3: ties go to the lowest index: every face before the one returned by
    [b2FindMaxSeparation] has a value strictly below the separation
    returned. *)
Theorem b2FindMaxSeparation_lowest_index
    (poly1 : b2PolygonShape) (xf1 : b2Transform)
    (poly2 : b2PolygonShape) (xf2 : b2Transform) (i : Z) :
  0 <= i < (b2FindMaxSeparation poly1 xf1 poly2 xf2).1 ->
  ltb (deepestPoint poly1 xf1 poly2 xf2 i)
      (b2FindMaxSeparation poly1 xf1 poly2 xf2).2 = true.
Proof.
  rewrite b2FindMaxSeparation_bestIndexed.
  destruct (bestIndexed_first (fun x y => ltb y x) (fun x => is_nan x = false)
              gtb_trans gtb_le_trans (deepestPoint poly1 xf1 poly2 xf2)
              (seqZ 0 (m_count poly1)) 0 (neg b2_maxFloat))
    as [->|(l1 & l2 & Hl & _ & _ & Hall)].
  - intros j _. apply deepestPoint_not_nan.
  - cbn [fst]. lia.
  - intros Hi. apply Hall. exact (seqZ_before _ _ _ _ Hl i Hi).
Qed.

Lemma bestIndexed_stays {A : Type} (beats : A -> A -> bool) (f : Z -> A)
    (l : list Z) (st : Z * A) :
  (forall i, i ∈ l -> beats (f i) st.2 = false) ->
  bestIndexed beats f st l = st.
Proof.
  revert st. induction l as [|a l IH]; intros [i0 best] H; [reflexivity|].
  unfold bestIndexed. cbn [foldl]. cbn [snd] in H.
  rewrite (H a) by left. apply IH. intros i Hi. apply H. right. exact Hi.
Qed.

Lemma deepestPoint_empty (poly1 : b2PolygonShape) (xf1 : b2Transform)
    (poly2 : b2PolygonShape) (xf2 : b2Transform) (i : Z) :
  m_count poly2 <= 0 -> deepestPoint poly1 xf1 poly2 xf2 i = b2_maxFloat.
Proof. intros H. unfold deepestPoint. rewrite seqZ_nil by exact H. reflexivity. Qed.

Lemma b2FindMaxSeparation_empty_reference
    (poly1 : b2PolygonShape) (xf1 : b2Transform)
    (poly2 : b2PolygonShape) (xf2 : b2Transform) :
  m_count poly1 <= 0 ->
  b2FindMaxSeparation poly1 xf1 poly2 xf2 = (0, neg b2_maxFloat).
Proof.
  intros H. unfold b2FindMaxSeparation. rewrite seqZ_nil by exact H. reflexivity.
Qed.

Lemma b2FindMaxSeparation_all_max
    (poly1 : b2PolygonShape) (xf1 : b2Transform)
    (poly2 : b2PolygonShape) (xf2 : b2Transform) :
  1 <= m_count poly1 ->
  (forall i, deepestPoint poly1 xf1 poly2 xf2 i = b2_maxFloat) ->
  b2FindMaxSeparation poly1 xf1 poly2 xf2 = (0, b2_maxFloat).
Proof.
  intros H1 H2. rewrite b2FindMaxSeparation_bestIndexed.
  rewrite seqZ_cons by lia. unfold bestIndexed. cbn [foldl].
  rewrite (H2 0).
  change (ltb (neg b2_maxFloat) b2_maxFloat) with true. cbv iota.
  apply (bestIndexed_stays (fun x y => ltb y x)
           (deepestPoint poly1 xf1 poly2 xf2) _ (0, b2_maxFloat)).
  intros i _. cbn [snd]. rewrite (H2 i). reflexivity.
Qed.

(** X4: against a polygon without vertices every face of the reference
    polygon keeps the initial [b2_maxFloat], so [b2FindMaxSeparation]
    returns face 0 with separation [b2_maxFloat]: the empty polygon counts
    as separated by more than any radius. *)
Theorem b2FindMaxSeparation_empty_other
    (poly1 : b2PolygonShape) (xf1 : b2Transform)
    (poly2 : b2PolygonShape) (xf2 : b2Transform) :
  1 <= m_count poly1 ->
  m_count poly2 <= 0 ->
  b2FindMaxSeparation poly1 xf1 poly2 xf2 = (0, b2_maxFloat) /\
  forall i, deepestPoint poly1 xf1 poly2 xf2 i = b2_maxFloat.
Proof.
  intros H1 H2.
  assert (H : forall i, deepestPoint poly1 xf1 poly2 xf2 i = b2_maxFloat)
    by (intros i; apply deepestPoint_empty; exact H2).
  split; [|exact H].
  apply b2FindMaxSeparation_all_max; assumption.
Qed.

Lemma b2FindMaxSeparation_lowest_index_witness :
  (b2FindMaxSeparation (boxShape 1 1) (translation zero zero)
                       (boxShape 1 1) (translation (of_Z 3) (of_Z 3))).1 = 1 /\
  ltb (deepestPoint (boxShape 1 1) (translation zero zero)
                    (boxShape 1 1) (translation (of_Z 3) (of_Z 3)) 0)
      (b2FindMaxSeparation (boxShape 1 1) (translation zero zero)
                           (boxShape 1 1) (translation (of_Z 3) (of_Z 3))).2 = true.
Proof.
  assert (H : (b2FindMaxSeparation (boxShape 1 1) (translation zero zero)
                 (boxShape 1 1) (translation (of_Z 3) (of_Z 3))).1 = 1)
    by (vm_compute; reflexivity).
  split; [exact H|].
  apply b2FindMaxSeparation_lowest_index. rewrite H. lia.
Defined.

Lemma b2FindMaxSeparation_empty_other_witness :
  b2FindMaxSeparation (boxShape 1 1) (translation zero zero)
                      (mkPolygon [] [] 0 zero) (translation zero zero)
  = (0, b2_maxFloat).
Proof.
  apply b2FindMaxSeparation_empty_other.
  - rewrite boxShape_count. lia.
  - cbn [m_count]. lia.
Defined.


(** ** The manifold builder: what each exit writes *)

Section ManifoldFrame.

Variable b2_linearSlop : float32.
Variable clipSegment :
  list b2ClipVertex -> b2Vec2 -> float32 -> Z -> list b2ClipVertex.

Lemma emitPoints_cases r f total cps pts :
  let k0 := (pointSeparation f (clip_at cps 0) <=? total)%f32 in
  let k1 := (pointSeparation f (clip_at cps 1) <=? total)%f32 in
  let p0 := manifoldPointOf r (clip_at cps 0) in
  let p1 := manifoldPointOf r (clip_at cps 1) in
  emitPoints r f total cps pts =
  match k0, k1 with
  | true, true => (<[1%nat := p1]> (<[0%nat := p0]> pts), 2)
  | true, false => (<[0%nat := p0]> pts, 1)
  | false, true => (<[0%nat := p1]> pts, 1)
  | false, false => (pts, 0)
  end.
Proof.
  cbv zeta. unfold emitPoints.
  change (seqZ 0 b2_maxManifoldPoints) with [0; 1]. cbn [foldl].
  destruct (pointSeparation f (clip_at cps 0) <=? total)%f32;
    destruct (pointSeparation f (clip_at cps 1) <=? total)%f32; reflexivity.
Qed.

Lemma emitPoints_frame r f total cps pts :
  let e := emitPoints r f total cps pts in
  length e.1 = length pts /\
  forall k : nat, e.2 <= Z.of_nat k -> e.1 !! k = pts !! k.
Proof.
  cbv zeta. rewrite emitPoints_cases. cbv zeta.
  destruct (pointSeparation f (clip_at cps 0) <=? total)%f32;
    destruct (pointSeparation f (clip_at cps 1) <=? total)%f32;
    cbn [fst snd]; rewrite ?length_insert; (split; [reflexivity|]);
    intros k Hk; rewrite ?list_lookup_insert_ne by lia; reflexivity.
Qed.

Lemma emitPoints_idempotent r f total cps pts :
  emitPoints r f total cps (emitPoints r f total cps pts).1 =
  emitPoints r f total cps pts.
Proof.
  rewrite !emitPoints_cases. cbv zeta.
  destruct (pointSeparation f (clip_at cps 0) <=? total)%f32;
    destruct (pointSeparation f (clip_at cps 1) <=? total)%f32;
    cbn [fst]; try reflexivity;
    destruct pts as [|q0 [|q1 pts]]; reflexivity.
Qed.

Lemma emitPoints_count_any r f total cps pts pts' :
  (emitPoints r f total cps pts).2 = (emitPoints r f total cps pts').2.
Proof.
  rewrite !emitPoints_cases. cbv zeta.
  destruct (pointSeparation f (clip_at cps 0) <=? total)%f32;
    destruct (pointSeparation f (clip_at cps 1) <=? total)%f32; reflexivity.
Qed.

Lemma emitPoints_some_kept r f total cps pts :
  (emitPoints r f total cps pts).2 <> 0 ->
  exists c, (pointSeparation f c <=? total)%f32 = true.
Proof.
  rewrite emitPoints_cases. cbv zeta.
  destruct (pointSeparation f (clip_at cps 0) <=? total)%f32 eqn:E0;
    [intros _; eexists; exact E0|].
  destruct (pointSeparation f (clip_at cps 1) <=? total)%f32 eqn:E1;
    [intros _; eexists; exact E1|].
  cbn [snd]. intros H. contradiction H. reflexivity.
Qed.

(** The four ways out of the routine: a separating axis, the failed
    assertion, a short clip, and the loop over the clipped points; with the
    manifold each leaves. *)
Lemma b2CollidePolygons_exits manifold polyA xfA polyB xfB :
  let R := b2CollidePolygons b2_linearSlop clipSegment manifold polyA xfA polyB xfB in
  let r := referenceOf b2_linearSlop polyA xfA polyB xfB in
  let f := frameOf b2_linearSlop polyA xfA polyB xfB in
  let e := emitPoints r f (totalRadius polyA polyB)
             (clipPoints2 b2_linearSlop clipSegment polyA xfA polyB xfB)
             (points manifold) in
  (((separationA polyA xfA polyB xfB >? totalRadius polyA polyB)%f32 = true \/
    (separationB polyA xfA polyB xfB >? totalRadius polyA polyB)%f32 = true) /\
   R = Some (set_pointCount manifold 0)) \/
  ((separationA polyA xfA polyB xfB >? totalRadius polyA polyB)%f32 = false /\
   (separationB polyA xfA polyB xfB >? totalRadius polyA polyB)%f32 = false /\
   referenceEdgeValid b2_linearSlop polyA xfA polyB xfB = false /\
   R = None) \/
  ((separationA polyA xfA polyB xfB >? totalRadius polyA polyB)%f32 = false /\
   (separationB polyA xfA polyB xfB >? totalRadius polyA polyB)%f32 = false /\
   referenceEdgeValid b2_linearSlop polyA xfA polyB xfB = true /\
   ((length (clipPoints1 b2_linearSlop clipSegment polyA xfA polyB xfB) < 2)%nat \/
    (length (clipPoints2 b2_linearSlop clipSegment polyA xfA polyB xfB) < 2)%nat) /\
   R = Some (set_type (set_pointCount manifold 0) (choice_type r))) \/
  (clipSucceeds b2_linearSlop clipSegment polyA xfA polyB xfB /\
   R = Some (mkManifold e.1 (frame_localNormal f) (planePoint f) (choice_type r) e.2)).
Proof.
  cbv zeta. rewrite b2CollidePolygons_unfold. cbv zeta.
  destruct (separationA polyA xfA polyB xfB >? totalRadius polyA polyB)%f32 eqn:EA;
    [left; split; [left|]; reflexivity|].
  destruct (separationB polyA xfA polyB xfB >? totalRadius polyA polyB)%f32 eqn:EB;
    [left; split; [right|]; reflexivity|].
  destruct (referenceEdgeValid b2_linearSlop polyA xfA polyB xfB) eqn:EV; cbn [negb];
    [|right; left; repeat split].
  destruct (Z.ltb_spec
              (Z.of_nat (length (clipPoints1 b2_linearSlop clipSegment polyA xfA polyB xfB))) 2);
    [right; right; left; repeat split; left; lia|].
  destruct (Z.ltb_spec
              (Z.of_nat (length (clipPoints2 b2_linearSlop clipSegment polyA xfA polyB xfB))) 2);
    [right; right; left; repeat split; right; lia|].
  right. right. right. split; [|reflexivity]. repeat split; try assumption; lia.
Qed.

(** X5: when one polygon has no vertex and the other has at least one, and
    the total radius is below [b2_maxFloat], [b2CollidePolygons] reports no
    contact through one of its two early returns, before the incident edge
    is looked up: it only resets [pointCount]. *)
Theorem b2CollidePolygons_empty_polygon manifold polyA xfA polyB xfB :
  (m_count polyA <= 0 /\ 1 <= m_count polyB) \/
  (1 <= m_count polyA /\ m_count polyB <= 0) ->
  ltb (totalRadius polyA polyB) b2_maxFloat = true ->
  b2CollidePolygons b2_linearSlop clipSegment manifold polyA xfA polyB xfB =
  Some (set_pointCount manifold 0).
Proof.
  intros Hempty Hr.
  destruct (b2CollidePolygons_exits manifold polyA xfA polyB xfB)
    as [[_ H]|[(HA & HB & _)|[(HA & HB & _)|[(HA & HB & _) _]]]];
    [exact H| | |]; exfalso.
  all: destruct Hempty as [[Ha Hb]|[Ha Hb]];
    [ unfold separationB in HB;
      rewrite (b2FindMaxSeparation_all_max polyB xfB polyA xfA Hb) in HB
        by (intros i; apply deepestPoint_empty; exact Ha)
    | unfold separationA in HA;
      rewrite (b2FindMaxSeparation_all_max polyA xfA polyB xfB Ha) in HA
        by (intros i; apply deepestPoint_empty; exact Hb) ];
    cbn [snd] in *; congruence.
Qed.

(** X6: a call that returns never changes the length of the manifold's
    point array and never touches a slot at or beyond the count it reports;
    unless both clips succeed it leaves the points, [localNormal] and
    [localPoint] as they were; and when a separating axis is found it
    changes nothing but [pointCount], so the type and normal of the
    manifold are then those of an earlier call. *)
Theorem b2CollidePolygons_frame manifold polyA xfA polyB xfB M :
  b2CollidePolygons b2_linearSlop clipSegment manifold polyA xfA polyB xfB = Some M ->
  length (points M) = length (points manifold) /\
  (forall k : nat, pointCount M <= Z.of_nat k ->
     points M !! k = points manifold !! k) /\
  (~ clipSucceeds b2_linearSlop clipSegment polyA xfA polyB xfB ->
   points M = points manifold /\
   localNormal M = localNormal manifold /\
   localPoint M = localPoint manifold) /\
  ((separationA polyA xfA polyB xfB >? totalRadius polyA polyB)%f32 = true \/
   (separationB polyA xfA polyB xfB >? totalRadius polyA polyB)%f32 = true ->
   M = set_pointCount manifold 0).
Proof.
  destruct (b2CollidePolygons_exits manifold polyA xfA polyB xfB)
    as [[Hs ->]|[(_ & _ & _ & ->)|[(HA & HB & _ & _ & ->)|[Hok ->]]]];
    intros [= <-].
  - repeat split; reflexivity.
  - split; [reflexivity|]. split; [reflexivity|]. split; [repeat split|].
    intros [H|H]; congruence.
  - cbn [points pointCount localNormal localPoint].
    destruct (emitPoints_frame (referenceOf b2_linearSlop polyA xfA polyB xfB)
                (frameOf b2_linearSlop polyA xfA polyB xfB)
                (totalRadius polyA polyB)
                (clipPoints2 b2_linearSlop clipSegment polyA xfA polyB xfB)
                (points manifold)) as [Hlen Hslots].
    split; [exact Hlen|]. split; [exact Hslots|].
    split; [intros Hn; contradiction|].
    destruct Hok as (HA & HB & _). intros [H|H]; congruence.
Qed.

(** X7: running the routine again on the manifold it returned, with the
    same shapes and placements, returns that manifold unchanged. *)
Theorem b2CollidePolygons_idempotent manifold polyA xfA polyB xfB M :
  b2CollidePolygons b2_linearSlop clipSegment manifold polyA xfA polyB xfB = Some M ->
  b2CollidePolygons b2_linearSlop clipSegment M polyA xfA polyB xfB = Some M.
Proof.
  intros HM.
  destruct (b2CollidePolygons_exits M polyA xfA polyB xfB)
    as [[Hs ->]|[(HA & HB & Hv & ->)|[(HA & HB & Hv & Hc & ->)|[Hok ->]]]];
  destruct (b2CollidePolygons_exits manifold polyA xfA polyB xfB)
    as [[Hs' H]|[(HA' & HB' & Hv' & H)|[(HA' & HB' & Hv' & Hc' & H)|[Hok' H]]]];
  rewrite HM in H; try discriminate H; injection H as ->;
  try (exfalso; destruct Hs; congruence);
  try (exfalso; destruct Hs'; congruence);
  try (exfalso; congruence);
  try (exfalso; destruct Hok as (? & ? & _); destruct Hs'; congruence);
  try (exfalso; destruct Hok' as (? & ? & _); destruct Hs; congruence);
  try (exfalso; destruct Hok as (_ & _ & ? & _); congruence);
  try (exfalso; destruct Hok' as (_ & _ & ? & _); congruence);
  try (exfalso; destruct Hok as (_ & _ & _ & ? & ?); destruct Hc'; lia);
  try (exfalso; destruct Hok' as (_ & _ & _ & ? & ?); destruct Hc; lia);
  try reflexivity.
  cbn [points]. rewrite emitPoints_idempotent. reflexivity.
Qed.

(** X8: what the routine reports does not depend on what the manifold held
    before: whether it returns is the same for any two manifolds passed in,
    and so is the point count it reports, the type once no separating axis
    is found, and after a successful clip [localNormal], [localPoint] and
    the reported points. *)
Theorem b2CollidePolygons_ignores_old_manifold
    manifold manifold' polyA xfA polyB xfB :
  let R := b2CollidePolygons b2_linearSlop clipSegment manifold polyA xfA polyB xfB in
  let R' := b2CollidePolygons b2_linearSlop clipSegment manifold' polyA xfA polyB xfB in
  (R = None <-> R' = None) /\
  forall M M', R = Some M -> R' = Some M' ->
  pointCount M = pointCount M' /\
  ((separationA polyA xfA polyB xfB >? totalRadius polyA polyB)%f32 = false ->
   (separationB polyA xfA polyB xfB >? totalRadius polyA polyB)%f32 = false ->
   mtype M = mtype M') /\
  (clipSucceeds b2_linearSlop clipSegment polyA xfA polyB xfB ->
   localNormal M = localNormal M' /\ localPoint M = localPoint M' /\
   (length (points manifold) = 2%nat -> length (points manifold') = 2%nat ->
    take (Z.to_nat (pointCount M)) (points M) =
    take (Z.to_nat (pointCount M')) (points M'))).
Proof.
  cbv zeta.
  destruct (b2CollidePolygons_exits manifold polyA xfA polyB xfB)
    as [[Hs ->]|[(HA & HB & Hv & ->)|[(HA & HB & Hv & Hc & ->)|[Hok ->]]]];
  destruct (b2CollidePolygons_exits manifold' polyA xfA polyB xfB)
    as [[Hs' ->]|[(HA' & HB' & Hv' & ->)|[(HA' & HB' & Hv' & Hc' & ->)|[Hok' ->]]]];
  try (exfalso; destruct Hs; congruence);
  try (exfalso; destruct Hs'; congruence);
  try (exfalso; congruence);
  try (exfalso; destruct Hok as (? & ? & ? & ? & ?); destruct Hs'; congruence);
  try (exfalso; destruct Hok' as (? & ? & ? & ? & ?); destruct Hs; congruence);
  try (exfalso; destruct Hok as (? & ? & ? & ? & ?); congruence);
  try (exfalso; destruct Hok' as (? & ? & ? & ? & ?); congruence);
  try (exfalso; destruct Hok as (? & ? & ? & ? & ?); destruct Hc'; lia);
  try (exfalso; destruct Hok' as (? & ? & ? & ? & ?); destruct Hc; lia);
  (split; [split; intros H; (discriminate H || reflexivity)|]);
  intros M M' HM HM'; try discriminate HM;
  injection HM as <-; injection HM' as <-.
  - split; [reflexivity|]. split; [intros; destruct Hs; congruence|].
    intros (? & ? & _). destruct Hs; congruence.
  - split; [reflexivity|]. split; [reflexivity|].
    intros (_ & _ & _ & ? & ?). destruct Hc; lia.
  - cbn [pointCount mtype localNormal localPoint points].
    split; [apply emitPoints_count_any|]. split; [reflexivity|].
    intros _. split; [reflexivity|]. split; [reflexivity|].
    intros Hlen Hlen'.
    rewrite !(emitPoints_kept _ _ _ _ _ Hlen), !(emitPoints_kept _ _ _ _ _ Hlen').
    cbv zeta. cbn [fst snd]. rewrite Nat2Z.id.
    rewrite !take_app_length' by (rewrite length_fmap; reflexivity).
    reflexivity.
Qed.

(** X9: a contact is reported only below the radius: when the routine
    returns a manifold with at least one point, the total radius is a
    number, both best separations are at most the total radius, the
    reference edge passed the assertion and both clips returned two
    points. *)
Theorem b2CollidePolygons_contact_within_radius
    manifold polyA xfA polyB xfB M :
  b2CollidePolygons b2_linearSlop clipSegment manifold polyA xfA polyB xfB = Some M ->
  pointCount M <> 0 ->
  is_nan (totalRadius polyA polyB) = false /\
  leb (separationA polyA xfA polyB xfB) (totalRadius polyA polyB) = true /\
  leb (separationB polyA xfA polyB xfB) (totalRadius polyA polyB) = true /\
  clipSucceeds b2_linearSlop clipSegment polyA xfA polyB xfB.
Proof.
  destruct (b2CollidePolygons_exits manifold polyA xfA polyB xfB)
    as [[Hs ->]|[(_ & _ & _ & ->)|[(HA & HB & _ & Hc & ->)|[Hok ->]]]];
    intros [= <-];
    cbn [pointCount set_pointCount set_type]; try (intros H; contradiction H; reflexivity).
  intros Hcount.
  destruct (emitPoints_some_kept _ _ _ _ _ Hcount) as [c Hc].
  assert (Hn : is_nan (totalRadius polyA polyB) = false)
    by exact (proj2 (leb_not_nan _ _ Hc)).
  pose proof Hok as (HA & HB & _).
  split; [exact Hn|].
  split; [|split].
  - apply ltb_false_leb; [apply b2FindMaxSeparation_not_nan|exact Hn|exact HA].
  - apply ltb_false_leb; [apply b2FindMaxSeparation_not_nan|exact Hn|exact HB].
  - exact Hok.
Qed.

(** X13: the routine fails to return, stopped by the assertion of
    [b2FindIncidentEdge], exactly when neither best separation exceeds the
    total radius and the polygon chosen as reference has no vertex; with at
    least one vertex in each polygon it always returns. *)
Theorem b2CollidePolygons_returns manifold polyA xfA polyB xfB :
  (b2CollidePolygons b2_linearSlop clipSegment manifold polyA xfA polyB xfB = None <->
   (separationA polyA xfA polyB xfB >? totalRadius polyA polyB)%f32 = false /\
   (separationB polyA xfA polyB xfB >? totalRadius polyA polyB)%f32 = false /\
   m_count (poly1 (referenceOf b2_linearSlop polyA xfA polyB xfB)) <= 0) /\
  (1 <= m_count polyA -> 1 <= m_count polyB ->
   is_Some (b2CollidePolygons b2_linearSlop clipSegment manifold polyA xfA polyB xfB)).
Proof.
  assert (Hv : referenceEdgeValid b2_linearSlop polyA xfA polyB xfB = false <->
               m_count (poly1 (referenceOf b2_linearSlop polyA xfA polyB xfB)) <= 0).
  { pose proof (referenceEdgeValid_nonempty b2_linearSlop polyA xfA polyB xfB) as H.
    destruct (referenceEdgeValid b2_linearSlop polyA xfA polyB xfB).
    - split; [discriminate|]. intros Hc. assert (true = true) as Ht by reflexivity.
      apply H in Ht. lia.
    - split; [|reflexivity]. intros _.
      destruct (Z.le_gt_cases (m_count (poly1 (referenceOf b2_linearSlop polyA xfA polyB xfB))) 0)
        as [Hle|Hgt]; [exact Hle|].
      assert (false = true) as Hf by (apply H; lia). discriminate Hf. }
  assert (Hnone : b2CollidePolygons b2_linearSlop clipSegment manifold polyA xfA polyB xfB
                  = None <->
                  (separationA polyA xfA polyB xfB >? totalRadius polyA polyB)%f32 = false /\
                  (separationB polyA xfA polyB xfB >? totalRadius polyA polyB)%f32 = false /\
                  m_count (poly1 (referenceOf b2_linearSlop polyA xfA polyB xfB)) <= 0).
  { rewrite <- Hv.
    destruct (b2CollidePolygons_exits manifold polyA xfA polyB xfB)
      as [[Hs ->]|[(HA & HB & Hn & ->)|[(HA & HB & Hn & _ & ->)|[Hok ->]]]].
    - split; [discriminate|]. intros (? & ? & _). destruct Hs; congruence.
    - split; [intros _; repeat split; assumption|reflexivity].
    - split; [discriminate|]. intros (_ & _ & ?). congruence.
    - split; [discriminate|]. intros (_ & _ & ?).
      destruct Hok as (_ & _ & ? & _). congruence. }
  split; [exact Hnone|].
  intros HcA HcB.
  destruct (b2CollidePolygons b2_linearSlop clipSegment manifold polyA xfA polyB xfB)
    as [M|] eqn:E; [eexists; reflexivity|].
  exfalso. assert (Hn : @None b2Manifold = None) by reflexivity.
  apply Hnone in Hn as (_ & _ & Hn).
  revert Hn. unfold referenceOf, chooseReference.
  destruct (separationB polyA xfA polyB xfB
            >? separationA polyA xfA polyB xfB + k_tol b2_linearSlop)%f32;
    cbn [poly1]; lia.
Qed.

End ManifoldFrame.

Lemma b2CollidePolygons_empty_polygon_witness :
  collide emptyManifold (boxShape 1 1) (translation zero zero)
          (mkPolygon [] [] 0 zero) (translation zero zero)
  = Some (set_pointCount emptyManifold 0).
Proof.
  apply b2CollidePolygons_empty_polygon.
  - right. rewrite boxShape_count. cbn [m_count]. lia.
  - vm_compute. reflexivity.
Defined.

Lemma b2CollidePolygons_frame_witness :
  collide emptyManifold (boxShape 1 1) (translation zero zero)
          (boxShape 1 1) (translation (of_ratio 3 2) zero) = Some overlappingContact /\
  length (points overlappingContact) = length (points emptyManifold) /\
  (~ clipSucceeds b2_linearSlop_default b2ClipSegmentToLine
       (boxShape 1 1) (translation zero zero)
       (boxShape 1 1) (translation (of_ratio 3 2) zero) ->
   points overlappingContact = points emptyManifold).
Proof.
  assert (HM : collide emptyManifold (boxShape 1 1) (translation zero zero)
                 (boxShape 1 1) (translation (of_ratio 3 2) zero)
               = Some overlappingContact) by (vm_compute; reflexivity).
  split; [exact HM|].
  destruct (b2CollidePolygons_frame b2_linearSlop_default b2ClipSegmentToLine
              emptyManifold (boxShape 1 1) (translation zero zero)
              (boxShape 1 1) (translation (of_ratio 3 2) zero)
              overlappingContact HM)
    as (Hlen & _ & Hkeep & _).
  split; [exact Hlen|]. intros Hn. exact (proj1 (Hkeep Hn)).
Defined.

Lemma b2CollidePolygons_idempotent_witness :
  collide overlappingContact (boxShape 1 1) (translation zero zero)
          (boxShape 1 1) (translation (of_ratio 3 2) zero) = Some overlappingContact.
Proof.
  apply (b2CollidePolygons_idempotent b2_linearSlop_default b2ClipSegmentToLine
           emptyManifold).
  vm_compute. reflexivity.
Defined.

Lemma b2CollidePolygons_contact_within_radius_witness :
  leb (separationA (boxShape 1 1) (translation zero zero)
                   (boxShape 1 1) (translation (of_ratio 3 2) zero))
      (totalRadius (boxShape 1 1) (boxShape 1 1)) = true.
Proof.
  destruct (b2CollidePolygons_contact_within_radius
              b2_linearSlop_default b2ClipSegmentToLine emptyManifold
              (boxShape 1 1) (translation zero zero)
              (boxShape 1 1) (translation (of_ratio 3 2) zero)
              overlappingContact)
    as (_ & H & _).
  - vm_compute. reflexivity.
  - cbn [pointCount overlappingContact]. lia.
  - exact H.
Defined.

(** ** The incident edge selector on every input *)

(** X10: [b2FindIncidentEdge] returns exactly when its assertion
    [0 <= edge1 < poly1->m_count] holds.  It then returns two clip vertices
    built from vertex slots [i1] and [i2] of the incident polygon that are
    never negative, lie below the vertex count when the polygon has a
    vertex, are distinct and consecutive (modulo the count) when it has two
    or more, and are both slot 0 when it has one vertex or none. *)
Theorem b2FindIncidentEdge_slots
    (poly1 : b2PolygonShape) (xf1 : b2Transform) (edge1 : Z)
    (poly2 : b2PolygonShape) (xf2 : b2Transform) :
  (~ 0 <= edge1 < m_count poly1 ->
   b2FindIncidentEdge poly1 xf1 edge1 poly2 xf2 = None) /\
  (0 <= edge1 < m_count poly1 ->
   exists i1 i2,
     b2FindIncidentEdge poly1 xf1 edge1 poly2 xf2 =
     Some [ mkClipVertex (b2Mul_xv xf2 (vertex_at (m_vertices poly2) i1))
                         (mkFeature (to_uint8 edge1) (to_uint8 i1) e_face e_vertex);
            mkClipVertex (b2Mul_xv xf2 (vertex_at (m_vertices poly2) i2))
                         (mkFeature (to_uint8 edge1) (to_uint8 i2) e_face e_vertex) ] /\
     0 <= i1 /\ 0 <= i2 /\
     (1 <= m_count poly2 -> i1 < m_count poly2 /\ i2 < m_count poly2) /\
     (2 <= m_count poly2 -> i1 <> i2 /\ i2 = (i1 + 1) mod m_count poly2) /\
     (m_count poly2 <= 1 -> i1 = 0 /\ i2 = 0)).
Proof.
  split; [apply b2FindIncidentEdge_aborts|].
  intros He. rewrite (b2FindIncidentEdge_asserted _ _ _ _ _ He). cbv zeta.
  set (index := (incidentIndex (incidentNormal1 poly1 xf1 edge1 xf2) poly2).1).
  exists index, (if index + 1 <? m_count poly2 then index + 1 else 0).
  split; [reflexivity|].
  assert (Hidx : index = 0 \/ 0 <= index < m_count poly2).
  { unfold index. rewrite incidentIndex_bestIndexed.
    destruct (bestIndexed_spec ltb ltb_irrefl ltb_trans
                (fun i => b2Dot (incidentNormal1 poly1 xf1 edge1 xf2)
                                (vertex_at (m_normals poly2) i))
                (seqZ 0 (m_count poly2)) 0 b2_maxFloat)
      as [_ [[H _]|[H _]]]; [left; exact H|right].
    apply elem_of_seqZ_0. exact H. }
  destruct (Z.ltb_spec (index + 1) (m_count poly2)) as [Hlt|Hge].
  - repeat split; try lia.
    symmetry. apply Z.mod_small. lia.
  - repeat split; try lia.
    assert (index + 1 = m_count poly2) as -> by lia.
    symmetry. apply Z.mod_same. lia.
Qed.

(** X11: ties go to the lowest index: when the dot products met are
    numbers, every edge before the one [b2FindIncidentEdge] selects has a
    dot product strictly above the selected one. *)
Theorem b2FindIncidentEdge_lowest_index
    (poly1 : b2PolygonShape) (xf1 : b2Transform) (edge1 : Z)
    (poly2 : b2PolygonShape) (xf2 : b2Transform) (i : Z) :
  (forall k, 0 <= k < m_count poly2 ->
     is_nan (incidentDot poly1 xf1 edge1 poly2 xf2 k) = false) ->
  let index := (incidentIndex (incidentNormal1 poly1 xf1 edge1 xf2) poly2).1 in
  0 <= i < index ->
  ltb (incidentDot poly1 xf1 edge1 poly2 xf2 index)
      (incidentDot poly1 xf1 edge1 poly2 xf2 i) = true.
Proof.
  intros Hnan. cbv zeta. rewrite incidentIndex_bestIndexed.
  change (fun i => b2Dot (incidentNormal1 poly1 xf1 edge1 xf2)
                         (vertex_at (m_normals poly2) i))
    with (incidentDot poly1 xf1 edge1 poly2 xf2).
  destruct (bestIndexed_first ltb (fun x => is_nan x = false)
              ltb_trans (fun a b c Hc => ltb_le_trans a b c Hc)
              (incidentDot poly1 xf1 edge1 poly2 xf2)
              (seqZ 0 (m_count poly2)) 0 b2_maxFloat)
    as [->|(l1 & l2 & Hl & Heq & _ & Hall)].
  - intros k Hk. apply Hnan. apply elem_of_seqZ_0. exact Hk.
  - cbn [fst]. lia.
  - intros Hi. rewrite <- Heq. apply Hall. exact (seqZ_before _ _ _ _ Hl i Hi).
Qed.

Lemma b2FindIncidentEdge_lowest_index_witness :
  (incidentIndex (incidentNormal1 (boxShape 1 1) (translation zero zero) 1
                                  (translation (of_Z 3) zero))
                 (boxShape 1 1)).1 = 3 /\
  ltb (incidentDot (boxShape 1 1) (translation zero zero) 1
                   (boxShape 1 1) (translation (of_Z 3) zero) 3)
      (incidentDot (boxShape 1 1) (translation zero zero) 1
                   (boxShape 1 1) (translation (of_Z 3) zero) 0) = true.
Proof.
  assert (H : (incidentIndex (incidentNormal1 (boxShape 1 1) (translation zero zero) 1
                                (translation (of_Z 3) zero))
                             (boxShape 1 1)).1 = 3)
    by (vm_compute; reflexivity).
  split; [exact H|].
  pose proof (b2FindIncidentEdge_lowest_index
                (boxShape 1 1) (translation zero zero) 1
                (boxShape 1 1) (translation (of_Z 3) zero) 0) as Hthm.
  cbv zeta in Hthm. rewrite H in Hthm. apply Hthm.
  - intros k Hk. index_cases Hk; vm_compute; reflexivity.
  - lia.
Defined.
